(** * freezeLedger front end: authenticated fetch, session hydration, product store

    A shallow embedding of the client-side request logic:
    - [fetchWithAuth] (lib/fetchWithAuth.js): the fetch wrapper that refreshes
      the session once on a 401 and retries the original request once;
    - [hydrate] and [clearAuth] of the two auth-store definitions
      (lib/authStore.js, with and without refresh on hydration);
    - the four product-store operations (lib/productStore.js).

    JavaScript effects are modelled by a state-and-exception monad over a
    [World] that records every request handed to [fetch], both zustand
    stores, the assignments to [window.location.href], the console and
    [localStorage].  The auth store is created with the persist
    middleware, so every [set] on it also rewrites its entry in
    [localStorage]; the product store is not persisted.  The network is an
    arbitrary deterministic function of the request history. *)

From Stdlib Require Import ZArith Bool Lia DecimalString.
From stdpp Require Import base strings list gmap.

Local Open Scope Z_scope.

(** ** JavaScript values *)

#[local] Set Warnings "-register-all".

(** Values that flow through the stores and through [response.json()].
    Numbers are restricted to integers (record ids, counters). *)
Inductive JSVal : Type :=
| JUndefined
| JNull
| JBool (b : bool)
| JNum (n : Z)
| JStr (s : string)
| JArr (xs : list JSVal)
| JObj (fields : list (string * JSVal)).

(** [!!v]: the falsy values are undefined, null, false, 0 and the empty string. *)
Definition truthy (v : JSVal) : bool :=
  match v with
  | JUndefined | JNull => false
  | JBool b => b
  | JNum n => negb (n =? 0)
  | JStr s => negb (String.eqb s "")
  | JArr _ | JObj _ => true
  end.

(** Own property lookup in an object literal. *)
Fixpoint assoc (k : string) (fields : list (string * JSVal)) : JSVal :=
  match fields with
  | [] => JUndefined
  | (k', v) :: rest => if String.eqb k k' then v else assoc k rest
  end.

(** [v.k] for the property names the code reads ([id], [detail], [state],
    [isAuthenticated]): a TypeError on undefined and null, the own property
    on an object, undefined on every other value. *)
Definition member (v : JSVal) (k : string) : option JSVal :=
  match v with
  | JUndefined | JNull => None
  | JObj fields => Some (assoc k fields)
  | _ => Some JUndefined
  end.

(** [v?.k]: undefined instead of a TypeError. *)
Definition opt_member (v : JSVal) (k : string) : JSVal :=
  match member v k with
  | Some x => x
  | None => JUndefined
  end.

(** [a === b].  The model has values, not references: the comparison is
    exact as soon as one side is a primitive, and answers false for two
    arrays or objects, which is right for two different references only.
    Statements that compare with an id therefore assume a [primitive] id. *)
Definition strict_eq (a b : JSVal) : bool :=
  match a, b with
  | JUndefined, JUndefined => true
  | JNull, JNull => true
  | JBool x, JBool y => Bool.eqb x y
  | JNum x, JNum y => x =? y
  | JStr x, JStr y => String.eqb x y
  | _, _ => false
  end.

(** Everything but an array or an object. *)
Definition primitive (v : JSVal) : bool :=
  match v with
  | JArr _ | JObj _ => false
  | _ => true
  end.

Definition string_of_Z (n : Z) : string := NilZero.string_of_int (Z.to_int n).

Fixpoint join (sep : string) (parts : list string) : string :=
  match parts with
  | [] => ""
  | [p] => p
  | p :: rest => p +:+ sep +:+ join sep rest
  end.

(** String conversion as performed by a template literal [`${v}`]. *)
Fixpoint toStr (v : JSVal) : string :=
  match v with
  | JUndefined => "undefined"
  | JNull => "null"
  | JBool true => "true"
  | JBool false => "false"
  | JNum n => string_of_Z n
  | JStr s => s
  | JArr xs =>
      join "," (map (fun x => match x with
                              | JUndefined | JNull => ""
                              | _ => toStr x
                              end) xs)
  | JObj _ => "[object Object]"
  end.

(** [s.includes(t)] *)
Fixpoint includes (t s : string) : bool :=
  String.prefix t s ||
  match s with
  | EmptyString => false
  | String _ rest => includes t rest
  end.

(** *** JSON text *)

Definition double_quote : Ascii.ascii := Ascii.ascii_of_nat 34.
Definition backslash : Ascii.ascii := Ascii.ascii_of_nat 92.

Definition hex_digit (n : nat) : Ascii.ascii :=
  Ascii.ascii_of_nat (if (n <? 10)%nat then 48 + n else 87 + n).

(** One character inside a JSON string: the quote, the backslash and the
    control characters are escaped, the rest is copied. *)
Definition escape_char (c : Ascii.ascii) : string :=
  let n := Ascii.nat_of_ascii c in
  if (n =? 34)%nat then String backslash (String double_quote "")
  else if (n =? 92)%nat then String backslash (String backslash "")
  else if (n =? 8)%nat then String backslash "b"
  else if (n =? 9)%nat then String backslash "t"
  else if (n =? 10)%nat then String backslash "n"
  else if (n =? 12)%nat then String backslash "f"
  else if (n =? 13)%nat then String backslash "r"
  else if (n <? 32)%nat then
    String backslash ("u00" +:+ String (hex_digit (n / 16))
                                  (String (hex_digit (n mod 16)) ""))
  else String c "".

Fixpoint escape (s : string) : string :=
  match s with
  | EmptyString => ""
  | String c rest => escape_char c +:+ escape rest
  end.

Definition quoted (s : string) : string :=
  String double_quote (escape s +:+ String double_quote "").

(** [JSON.stringify(v)] on the values of this model; [None] is undefined.
    A property whose value is undefined is left out of an object, and an
    undefined entry of an array is written as null. *)
Fixpoint stringify (v : JSVal) : option string :=
  match v with
  | JUndefined => None
  | JNull => Some "null"
  | JBool true => Some "true"
  | JBool false => Some "false"
  | JNum n => Some (string_of_Z n)
  | JStr s => Some (quoted s)
  | JArr xs =>
      Some ("[" +:+ join "," (map (fun x => match stringify x with
                                            | Some t => t
                                            | None => "null"
                                            end) xs) +:+ "]")
  | JObj fields =>
      Some ("{" +:+ join ","
                      (omap (fun kv => match kv with
                                       | (k, x) =>
                                           match stringify x with
                                           | Some t => Some (quoted k +:+ ":" +:+ t)
                                           | None => None
                                           end
                                       end) fields) +:+ "}")
  end.

(** ** Requests, responses, faults *)

(** The fields of a fetch init object.  [None] is an absent field; [other]
    holds any further fields the caller supplied (mode, cache, ...). *)
Record RequestInit : Type := mkInit {
  method : option string;
  credentials : option string;
  headers : option (gmap string string);
  body : option string;
  other : gmap string string
}.

Record Request : Type := mkRequest {
  req_url : string;
  req_init : RequestInit
}.

(** A JavaScript Error, as far as the code looks at it. *)
Record Error : Type := mkError { message : string }.

(** A value returned or an error thrown. *)
Inductive Result (A : Type) : Type :=
| Ok (a : A)
| Throw (e : Error).
Arguments Ok {A} a.
Arguments Throw {A} e.

(** A response as the code observes it: the status, and what
    [response.json()] yields (the parsed body, or the error it rejects
    with when the body is not JSON). *)
Record Response : Type := mkResponse {
  status : Z;
  payload : Result JSVal
}.

(** [response.ok]: the status is in the range 200-299. *)
Definition ok (r : Response) : bool := (200 <=? status r) && (status r <=? 299).

Inductive Outcome : Type :=
| Resp (r : Response)
| Fault (e : Error).

(** The transport: what the network answers to a request, given every
    request issued before it. *)
Definition Transport : Type := list Request -> Request -> Outcome.

(** ** Stores *)

Record AuthState : Type := mkAuth {
  user : JSVal;
  isAuthenticated : bool;
  loading : bool;
  error : JSVal
}.

(** The argument of zustand's [set]: the fields to overwrite. *)
Record AuthPatch : Type := mkAuthPatch {
  set_user : option JSVal;
  set_isAuthenticated : option bool;
  set_loading : option bool;
  set_error : option JSVal
}.

Definition merge_auth (p : AuthPatch) (s : AuthState) : AuthState :=
  {| user := default (user s) (set_user p);
     isAuthenticated := default (isAuthenticated s) (set_isAuthenticated p);
     loading := default (loading s) (set_loading p);
     error := default (error s) (set_error p) |}.

Record ProductState : Type := mkProducts {
  products : JSVal;
  p_loading : bool;
  p_error : JSVal
}.

Record ProductPatch : Type := mkProductPatch {
  set_products : option JSVal;
  set_p_loading : option bool;
  set_p_error : option JSVal
}.

Definition merge_products (p : ProductPatch) (s : ProductState) : ProductState :=
  {| products := default (products s) (set_products p);
     p_loading := default (p_loading s) (set_p_loading p);
     p_error := default (p_error s) (set_p_error p) |}.

(** ** The world and the effect monad *)

Record World : Type := mkWorld {
  requests : list Request;          (* every call of fetch, oldest first *)
  auth : AuthState;                 (* useAuthStore *)
  productStore : ProductState;      (* useProductStore *)
  has_window : bool;                (* typeof window !== "undefined" *)
  navigation : list string;         (* assignments to window.location.href *)
  console : list string;            (* console.error *)
  localStorage : gmap string string
}.

(** A computation returns or throws, and leaves a world either way. *)
Definition M (A : Type) : Type := World -> Result A * World.

Definition ret {A} (a : A) : M A := fun w => (Ok a, w).

Definition throw {A} (e : Error) : M A := fun w => (Throw e, w).

Definition bind {A B} (m : M A) (k : A -> M B) : M B :=
  fun w =>
    match m w with
    | (Ok a, w') => k a w'
    | (Throw e, w') => (Throw e, w')
    end.

(** [try { m } catch (e) { h e }] *)
Definition try_catch {A} (m : M A) (h : Error -> M A) : M A :=
  fun w =>
    match m w with
    | (Ok a, w') => (Ok a, w')
    | (Throw e, w') => h e w'
    end.

(** [try { m } finally { f }]: [f] runs on return and on throw. *)
Definition finally {A} (m : M A) (f : M unit) : M A :=
  fun w =>
    match m w with
    | (res, w') =>
        match f w' with
        | (Ok _, w'') => (res, w'')
        | (Throw e, w'') => (Throw e, w'')
        end
    end.

Declare Scope js_scope.
Delimit Scope js_scope with js.
Notation "x <- m ;; k" := (bind m (fun x => k))
  (at level 100, m at next level, right associativity) : js_scope.
Notation "m ;; k" := (bind m (fun _ => k))
  (at level 100, right associativity) : js_scope.
Local Open Scope js_scope.

(** A partial operation as a computation: its value, or [e] thrown. *)
Definition lift {A} (r : option A) (e : Error) : M A :=
  match r with
  | Some a => ret a
  | None => throw e
  end.

(** Field updates of the world. *)
Definition log_request (req : Request) (w : World) : World :=
  {| requests := requests w ++ [req]; auth := auth w;
     productStore := productStore w; has_window := has_window w;
     navigation := navigation w; console := console w;
     localStorage := localStorage w |}.

Definition with_auth (a : AuthState) (w : World) : World :=
  {| requests := requests w; auth := a;
     productStore := productStore w; has_window := has_window w;
     navigation := navigation w; console := console w;
     localStorage := localStorage w |}.

Definition with_products (p : ProductState) (w : World) : World :=
  {| requests := requests w; auth := auth w;
     productStore := p; has_window := has_window w;
     navigation := navigation w; console := console w;
     localStorage := localStorage w |}.

Definition with_navigation (n : list string) (w : World) : World :=
  {| requests := requests w; auth := auth w;
     productStore := productStore w; has_window := has_window w;
     navigation := n; console := console w;
     localStorage := localStorage w |}.

Definition with_console (c : list string) (w : World) : World :=
  {| requests := requests w; auth := auth w;
     productStore := productStore w; has_window := has_window w;
     navigation := navigation w; console := c;
     localStorage := localStorage w |}.

Definition with_storage (s : gmap string string) (w : World) : World :=
  {| requests := requests w; auth := auth w;
     productStore := productStore w; has_window := has_window w;
     navigation := navigation w; console := console w;
     localStorage := s |}.

(** [localStorage.setItem(key, value)] *)
Definition setItem (key value : string) (s : gmap string string)
  : gmap string string := <[key := value]> s.
Arguments setItem : simpl never.

(** What the persist middleware keeps of the auth store:
    [partialize: (state) => ({ user, isAuthenticated })], wrapped with the
    version of the store. *)
Definition persisted_value (a : AuthState) : JSVal :=
  JObj [("state", JObj [("user", user a);
                        ("isAuthenticated", JBool (isAuthenticated a))]);
        ("version", JNum 0)].

(** The text the persist middleware writes under "auth-store". *)
Definition persist_text (a : AuthState) : string :=
  match stringify (persisted_value a) with
  | Some text => text
  | None => "undefined"
  end.
Arguments persist_text : simpl never.

(** The write the persist middleware adds to every [set] of the auth
    store: the entry "auth-store" becomes the persisted part of the new
    state. *)
Definition persist_write (w : World) : World :=
  with_storage (setItem "auth-store" (persist_text (auth w)) (localStorage w)) w.

(** zustand's [set(patch)] on the auth store, which is created with the
    persist middleware: the state is merged, then written to storage. *)
Definition authSet (p : AuthPatch) : M unit :=
  fun w => (Ok tt, persist_write (with_auth (merge_auth p (auth w)) w)).

(** zustand's [set(patch)] and [get()] on the product store. *)
Definition productSet (p : ProductPatch) : M unit :=
  fun w => (Ok tt, with_products (merge_products p (productStore w)) w).

Definition productGet : M ProductState := fun w => (Ok (productStore w), w).

(** [if (typeof window !== "undefined") window.location.href = target] *)
Definition redirect (target : string) : M unit :=
  fun w => (Ok tt, if has_window w
                   then with_navigation (navigation w ++ [target]) w
                   else w).

(** [console.error(label, e)] *)
Definition console_error (label : string) (e : Error) : M unit :=
  fun w => (Ok tt, with_console (console w ++ [label +:+ " " +:+ message e]) w).

(** [localStorage.getItem(key)]; [None] is null. *)
Definition getItem (key : string) : M (option string) :=
  fun w => (Ok (localStorage w !! key), w).

(** [await response.json()] *)
Definition json (r : Response) : M JSVal := fun w => (payload r, w).

(** The TypeError of a property read on undefined or null. *)
Definition TypeError (v : JSVal) (k : string) : Error :=
  mkError ("Cannot read properties of " +:+ toStr v +:+ " (reading '" +:+ k +:+ "')").

(** [v.k] as a computation. *)
Definition get (v : JSVal) (k : string) : M JSVal :=
  lift (member v k) (TypeError v k).

(** [a || b] *)
Definition js_or (a b : JSVal) : JSVal := if truthy a then a else b.

(** The elements of [...v] inside an array literal: an array or a string is
    iterable, anything else the code can hold is not. *)
Definition spread (v : JSVal) : option (list JSVal) :=
  match v with
  | JArr xs => Some xs
  | JStr s => Some (map (fun c => JStr (String c EmptyString)) (String.list_ascii_of_string s))
  | _ => None
  end.

(** The receiver of [.map] and [.filter]: only an array has them. *)
Definition as_array (v : JSVal) : option (list JSVal) :=
  match v with
  | JArr xs => Some xs
  | _ => None
  end.

(** The requests a computation adds to the log of [w]. *)
Definition issued {A} (m : M A) (w : World) : list Request :=
  drop (length (requests w)) (requests (snd (m w))).

(** How many requests of a log go to the URL [u]. *)
Definition requests_to (u : string) (l : list Request) : nat :=
  length (filter (fun r => req_url r = u) l).

(** The headers every call of this code base sends. *)
Definition json_headers : gmap string string :=
  {[ "Content-Type" := "application/json" ]}.

Definition plain_init (m : string) (b : option string) : RequestInit :=
  {| method := Some m; credentials := Some "include";
     headers := Some json_headers; body := b; other := ∅ |}.

(** ** The code under verification *)

Section Platform.

(** [process.env.NEXT_PUBLIC_API_URL || "http://localhost:8000"] *)
Variable API_BASE_URL : string.

(** The network. *)
Variable net : Transport.

(** The platform's [JSON.parse], which returns a value or throws. *)
Variable JSON_parse : string -> Result JSVal.

(** [await fetch(url, init)]: the request is logged, then the transport
    answers with a response or the call rejects with a fault. *)
Definition fetch (url : string) (init : RequestInit) : M Response :=
  fun w =>
    let req := mkRequest url init in
    match net (requests w) req with
    | Resp r => (Ok r, log_request req w)
    | Fault e => (Throw e, log_request req w)
    end.

Definition refresh_url : string := API_BASE_URL +:+ "/api/auth/refresh/".
Definition me_url : string := API_BASE_URL +:+ "/api/auth/me/".

(** The refresh call, written out identically at each of its call sites. *)
Definition refresh_init : RequestInit := plain_init "POST" None.
Definition refresh_request : Request := mkRequest refresh_url refresh_init.

Definition me_init : RequestInit := plain_init "GET" None.
Definition me_request : Request := mkRequest me_url me_init.

(** The patch written by [clearAuth] and by the first branches of [hydrate]. *)
Definition cleared_patch : AuthPatch :=
  {| set_user := Some JNull; set_isAuthenticated := Some false;
     set_loading := Some false; set_error := Some JNull |}.

(** [set({ user: null, isAuthenticated: false, error: null })] *)
Definition signed_out_patch : AuthPatch :=
  {| set_user := Some JNull; set_isAuthenticated := Some false;
     set_loading := None; set_error := Some JNull |}.

Definition loading_patch (b : bool) : AuthPatch :=
  {| set_user := None; set_isAuthenticated := None;
     set_loading := Some b; set_error := None |}.

Definition error_patch (e : JSVal) : AuthPatch :=
  {| set_user := None; set_isAuthenticated := None;
     set_loading := None; set_error := Some e |}.

(** [set({ user, isAuthenticated: true, error: null })] *)
Definition signed_in_patch (u : JSVal) : AuthPatch :=
  {| set_user := Some u; set_isAuthenticated := Some true;
     set_loading := None; set_error := Some JNull |}.

(** The part of [hydrate] both store definitions share: read the persisted
    state and decide whether a verification call is due.  [Some tt] means
    the function has returned. *)
Definition read_persisted : M (option unit) :=
  savedState <- getItem "auth-store" ;;
  match savedState with
  | None | Some "" =>
      authSet cleared_patch ;; ret (Some tt)
  | Some text =>
      parsed <- (fun w => (JSON_parse text, w)) ;;
      let state := opt_member parsed "state" in
      if negb (truthy (opt_member state "isAuthenticated"))
      then authSet cleared_patch ;; ret (Some tt)
      else ret None
  end.

End Platform.

(** *** authStore, first definition (no refresh during hydration) *)
Module AuthStoreBasic.
Section Store.

Variable API_BASE_URL : string.
Variable net : Transport.
Variable JSON_parse : string -> Result JSVal.

Definition setUser (u : JSVal) : M unit :=
  authSet {| set_user := Some u; set_isAuthenticated := Some (truthy u);
             set_loading := None; set_error := Some JNull |}.

Definition hydrate : M unit :=
  authSet (loading_patch true) ;;
  finally
    (try_catch
       (returned <- read_persisted JSON_parse ;;
        match returned with
        | Some _ => ret tt
        | None =>
            response <- fetch net (me_url API_BASE_URL) me_init ;;
            if ok response then
              u <- json response ;;
              authSet (signed_in_patch u)
            else if status response =? 401 then
              authSet signed_out_patch
            else
              authSet (error_patch (JStr "Failed to hydrate auth state"))
        end)
       (fun e =>
          console_error "Hydration error:" e ;;
          authSet (error_patch (JStr (message e)))))
    (authSet (loading_patch false)).

Definition clearAuth : M unit := authSet cleared_patch.

End Store.
End AuthStoreBasic.

(** *** authStore, second definition (refresh and retry during hydration) *)
Module AuthStore.
Section Store.

Variable API_BASE_URL : string.
Variable net : Transport.
Variable JSON_parse : string -> Result JSVal.

Definition setUser (u : JSVal) : M unit :=
  authSet {| set_user := Some u; set_isAuthenticated := Some (truthy u);
             set_loading := None; set_error := Some JNull |}.

(** The block run when /me answers 401.  [None] means hydrate has
    returned from inside the block; [Some r] is the response to go on
    with. *)
Definition refresh_and_retry : M (option Response) :=
  try_catch
    (refreshResponse <- fetch net (refresh_url API_BASE_URL) refresh_init ;;
     if ok refreshResponse then
       response <- fetch net (me_url API_BASE_URL) me_init ;;
       ret (Some response)
     else
       authSet signed_out_patch ;;
       authSet (loading_patch false) ;;
       ret None)
    (fun _ =>
       authSet signed_out_patch ;;
       authSet (loading_patch false) ;;
       ret None).

Definition hydrate : M unit :=
  authSet (loading_patch true) ;;
  finally
    (try_catch
       (returned <- read_persisted JSON_parse ;;
        match returned with
        | Some _ => ret tt
        | None =>
            first <- fetch net (me_url API_BASE_URL) me_init ;;
            next <- (if status first =? 401 then refresh_and_retry
                     else ret (Some first)) ;;
            match next with
            | None => ret tt
            | Some response =>
                if ok response then
                  u <- json response ;;
                  authSet (signed_in_patch u)
                else
                  authSet signed_out_patch
            end
        end)
       (fun e =>
          console_error "Hydration error:" e ;;
          authSet signed_out_patch))
    (authSet (loading_patch false)).

Definition clearAuth : M unit := authSet cleared_patch.

End Store.
End AuthStore.

(** *** fetchWithAuth *)

Section FetchWithAuth.

Variable API_BASE_URL : string.
Variable net : Transport.

Definition isAuthEndpoint (url : string) : bool :=
  includes "/auth/login/" url ||
  includes "/auth/refresh/" url ||
  includes "/auth/logout/" url.

(** [options.headers] spread into an object literal: nothing when absent. *)
Definition spread_headers (options : RequestInit) : gmap string string :=
  default ∅ (headers options).

(** [{ ...options, credentials: "include",
       headers: { "Content-Type": "application/json", ...options.headers } }]
    Later keys win, so the caller's headers override the default one and
    the caller's credentials field is overwritten. *)
Definition fetchOptions (options : RequestInit) : RequestInit :=
  {| method := method options;
     credentials := Some "include";
     headers := Some (spread_headers options ∪ json_headers);
     body := body options;
     other := other options |}.

(** The catch block of [fetchWithAuth]. *)
Definition on_refresh_fault (e : Error) : M Response :=
  console_error "Token refresh failed:" e ;;
  AuthStore.clearAuth ;;
  redirect "/login" ;;
  throw e.

Definition fetchWithAuth (url : string) (options : RequestInit) : M Response :=
  response <- fetch net url (fetchOptions options) ;;
  if negb (status response =? 401) || isAuthEndpoint url then
    ret response
  else
    try_catch
      (refreshResponse <- fetch net (refresh_url API_BASE_URL) refresh_init ;;
       if ok refreshResponse then
         response <- fetch net url (fetchOptions options) ;;
         ret response
       else
         AuthStore.clearAuth ;;
         redirect "/login" ;;
         ret refreshResponse)
      on_refresh_fault.

(** [options = {}] *)
Definition no_options : RequestInit :=
  {| method := None; credentials := None; headers := None; body := None;
     other := ∅ |}.

(** The platform's [JSON.stringify]; [None] is undefined. *)
Variable JSON_stringify : JSVal -> option string.

(** [{ ...options, method: m }] *)
Definition with_method (m : string) (options : RequestInit) : RequestInit :=
  {| method := Some m; credentials := credentials options;
     headers := headers options; body := body options;
     other := other options |}.

(** [{ ...options, method: m, body: JSON.stringify(data) }] *)
Definition with_method_and_body (m : string) (data : JSVal) (options : RequestInit)
  : RequestInit :=
  {| method := Some m; credentials := credentials options;
     headers := headers options; body := JSON_stringify data;
     other := other options |}.

Definition fetchGet (url : string) (options : RequestInit) : M Response :=
  fetchWithAuth url (with_method "GET" options).

Definition fetchPost (url : string) (data : JSVal) (options : RequestInit)
  : M Response :=
  fetchWithAuth url (with_method_and_body "POST" data options).

Definition fetchPut (url : string) (data : JSVal) (options : RequestInit)
  : M Response :=
  fetchWithAuth url (with_method_and_body "PUT" data options).

Definition fetchDelete (url : string) (options : RequestInit) : M Response :=
  fetchWithAuth url (with_method "DELETE" options).

End FetchWithAuth.

(** *** productStore *)

Module ProductStore.
Section Store.

Variable API_BASE_URL : string.
Variable net : Transport.

(** The platform's [JSON.stringify]; [None] is undefined. *)
Variable JSON_stringify : JSVal -> option string.

Definition products_url : string := API_BASE_URL +:+ "/api/products/".

(** [`${API_BASE_URL}/api/products/${productId}/`] *)
Definition product_url (productId : JSVal) : string :=
  API_BASE_URL +:+ "/api/products/" +:+ toStr productId +:+ "/".

(** [set({ loading: true, error: null })] *)
Definition start_patch : ProductPatch :=
  {| set_products := None; set_p_loading := Some true; set_p_error := Some JNull |}.

Definition p_error_patch (e : JSVal) : ProductPatch :=
  {| set_products := None; set_p_loading := None; set_p_error := Some e |}.

(** [set({ products, error: null })] *)
Definition loaded_patch (ps : JSVal) : ProductPatch :=
  {| set_products := Some ps; set_p_loading := None; set_p_error := Some JNull |}.

Definition done_patch : ProductPatch :=
  {| set_products := None; set_p_loading := Some false; set_p_error := None |}.

(** The catch and finally blocks, the same in the four operations. *)
Definition guarded (label : string) (body : M JSVal) : M JSVal :=
  finally
    (try_catch body
       (fun e =>
          console_error label e ;;
          productSet (p_error_patch (JStr (message e))) ;;
          ret JUndefined))
    (productSet done_patch).

(** The last branch of create, update and delete:
    [const data = await response.json();
     set({ error: data.detail || fallback })] *)
Definition report_detail (response : Response) (fallback : string) : M JSVal :=
  data <- json response ;;
  detail <- get data "detail" ;;
  productSet (p_error_patch (js_or detail (JStr fallback))) ;;
  ret JUndefined.

Definition not_a_function (what : string) : Error :=
  mkError (what +:+ " is not a function").

Definition fetchProducts : M JSVal :=
  productSet start_patch ;;
  guarded "Fetch products error:"
    (response <- fetch net products_url (plain_init "GET" None) ;;
     if ok response then
       ps <- json response ;;
       productSet (loaded_patch ps) ;;
       ret JUndefined
     else if status response =? 401 then
       productSet {| set_products := Some (JArr []); set_p_loading := None;
                     set_p_error := Some (JStr "Unauthorized") |} ;;
       ret JUndefined
     else
       productSet (p_error_patch (JStr "Failed to fetch products")) ;;
       ret JUndefined).

Definition createProduct (productData : JSVal) : M JSVal :=
  productSet start_patch ;;
  guarded "Create product error:"
    (response <- fetch net products_url
                   (plain_init "POST" (JSON_stringify productData)) ;;
     if ok response then
       newProduct <- json response ;;
       st <- productGet ;;
       rest <- lift (spread (products st)) (mkError "products is not iterable") ;;
       productSet (loaded_patch (JArr (newProduct :: rest))) ;;
       ret newProduct
     else if status response =? 401 then
       productSet (p_error_patch (JStr "Unauthorized")) ;;
       ret JUndefined
     else
       report_detail response "Failed to create product").

(** [(p) => p.id === productId ? updatedProduct : p] *)
Definition replace_if (productId updatedProduct p : JSVal) : M JSVal :=
  id <- get p "id" ;;
  ret (if strict_eq id productId then updatedProduct else p).

(** [(p) => p.id !== productId] *)
Definition keep_if (productId p : JSVal) : M bool :=
  id <- get p "id" ;;
  ret (negb (strict_eq id productId)).

(** [xs.map(f)], where [f] may throw. *)
Fixpoint array_map (f : JSVal -> M JSVal) (xs : list JSVal) : M (list JSVal) :=
  match xs with
  | [] => ret []
  | x :: rest =>
      y <- f x ;;
      rest' <- array_map f rest ;;
      ret (y :: rest')
  end.

(** [xs.filter(pred)], where [pred] may throw. *)
Fixpoint array_filter (pred : JSVal -> M bool) (xs : list JSVal) : M (list JSVal) :=
  match xs with
  | [] => ret []
  | x :: rest =>
      keep <- pred x ;;
      rest' <- array_filter pred rest ;;
      ret (if keep then x :: rest' else rest')
  end.

Definition updateProduct (productId productData : JSVal) : M JSVal :=
  productSet start_patch ;;
  guarded "Update product error:"
    (response <- fetch net (product_url productId)
                   (plain_init "PUT" (JSON_stringify productData)) ;;
     if ok response then
       updatedProduct <- json response ;;
       st <- productGet ;;
       old <- lift (as_array (products st)) (not_a_function "get(...).products.map") ;;
       ps <- array_map (replace_if productId updatedProduct) old ;;
       productSet (loaded_patch (JArr ps)) ;;
       ret updatedProduct
     else if status response =? 401 then
       productSet (p_error_patch (JStr "Unauthorized")) ;;
       ret JUndefined
     else if status response =? 403 then
       productSet (p_error_patch (JStr "You can only update your own products")) ;;
       ret JUndefined
     else
       report_detail response "Failed to update product").

Definition deleteProduct (productId : JSVal) : M JSVal :=
  productSet start_patch ;;
  guarded "Delete product error:"
    (response <- fetch net (product_url productId) (plain_init "DELETE" None) ;;
     if ok response then
       st <- productGet ;;
       old <- lift (as_array (products st)) (not_a_function "get(...).products.filter") ;;
       ps <- array_filter (keep_if productId) old ;;
       productSet (loaded_patch (JArr ps)) ;;
       ret (JBool true)
     else if status response =? 401 then
       productSet (p_error_patch (JStr "Unauthorized")) ;;
       ret JUndefined
     else if status response =? 403 then
       productSet (p_error_patch (JStr "You can only delete your own products")) ;;
       ret JUndefined
     else
       report_detail response "Failed to delete product").

(** [set({ products: [], error: null })] *)
Definition clearProducts : M unit := productSet (loaded_patch (JArr [])).

End Store.
End ProductStore.

(** ** Scenarios: concrete transports and worlds *)

(** A transport that answers the n-th request of a run with the n-th entry
    of a script, and with a network fault once the script is exhausted. *)
Definition scripted (script : list Outcome) : Transport :=
  fun history _ => default (Fault (mkError "Failed to fetch")) (script !! length history).

Definition base : string := "http://localhost:8000".

Definition alice : JSVal := JObj [("id", JNum 7); ("email", JStr "alice@example.com")].

Definition signed_in : AuthState :=
  {| user := alice; isAuthenticated := true; loading := false; error := JNull |}.

Definition signed_out : AuthState :=
  {| user := JNull; isAuthenticated := false; loading := false; error := JNull |}.

Definition no_products : ProductState :=
  {| products := JArr []; p_loading := false; p_error := JNull |}.

(** A browser tab with a signed-in session and nothing requested yet. *)
Definition browser : World :=
  {| requests := []; auth := signed_in; productStore := no_products;
     has_window := true; navigation := []; console := [];
     localStorage := ∅ |}.

(** A browser tab with the given session in the store and the given text
    (or nothing) under "auth-store". *)
Definition tab (a : AuthState) (entry : option string) : World :=
  {| requests := []; auth := a; productStore := no_products;
     has_window := true; navigation := []; console := [];
     localStorage := match entry with
                     | Some text => {[ "auth-store" := text ]}
                     | None => ∅
                     end |}.

(** A parser for the runs below: it reads the two texts the persist
    middleware writes for the sessions [signed_in] and [signed_out] and
    rejects every other text. *)
Definition parse_stored (text : string) : Result JSVal :=
  if String.eqb text (persist_text signed_in) then Ok (persisted_value signed_in)
  else if String.eqb text (persist_text signed_out) then Ok (persisted_value signed_out)
  else Throw (mkError "Unexpected token in JSON").

(** A tab whose store and storage agree on a signed-in session. *)
Definition returning_tab : World := tab signed_in (Some (persist_text signed_in)).


(** A signed-out store over an entry that says signed in. *)
Definition lagging_tab : World := tab signed_out (Some (persist_text signed_in)).

(** A signed-in store over an entry that is not JSON. *)
Definition corrupt_tab : World := tab signed_in (Some "{state:").

Definition answer (code : Z) : Response := mkResponse code (Ok (JObj [])).
Definition reply (code : Z) : Outcome := Resp (answer code).
Definition offline : Outcome := Fault (mkError "Failed to fetch").

Definition orders_url : string := base +:+ "/api/orders/".
Definition login_url : string := base +:+ "/api/auth/login/".

(** The session after [clearAuth]. *)
Definition cleared : AuthState :=
  {| user := JNull; isAuthenticated := false; loading := false; error := JNull |}.

(** The request [fetchWithAuth url options] sends, first and on retry. *)
Definition original (url : string) (options : RequestInit) : Request :=
  mkRequest url (fetchOptions options).


(** The world the else branch and the catch block of [fetchWithAuth] leave behind. *)
Definition abandon (v : World) : World :=
  snd (redirect "/login" (persist_write (with_auth cleared v))).

(** What a reader finds under "auth-store": nothing (or the empty
    string), text that does not parse, or a value whose
    [state?.isAuthenticated] is truthy or falsy. *)
Inductive Persisted : Type :=
| Absent
| Unreadable
| Flag (b : bool).

(** The entry as it stands in [w]. *)
Definition persisted (JSON_parse : string -> Result JSVal) (w : World) : Persisted :=
  match localStorage w !! "auth-store" with
  | None | Some "" => Absent
  | Some text =>
      match JSON_parse text with
      | Throw _ => Unreadable
      | Ok parsed =>
          Flag (truthy (opt_member (opt_member parsed "state") "isAuthenticated"))
      end
  end.

Definition readable (r : Response) : option JSVal :=
  match payload r with
  | Ok v => Some v
  | Throw _ => None
  end.

(** The entry as [hydrate] reads it.  Its first statement,
    [set({ loading: true })], has made the persist middleware rewrite the
    entry from the store, so what [getItem] returns is the persisted text of
    the session [a] the store held when [hydrate] was called. *)
Definition read_back (JSON_parse : string -> Result JSVal) (a : AuthState)
  : Persisted :=
  match JSON_parse (persist_text a) with
  | Throw _ => Unreadable
  | Ok parsed =>
      Flag (truthy (opt_member (opt_member parsed "state") "isAuthenticated"))
  end.

(** The profile a verification ends with, read off the transport: the body
    of a successful answer to /me, either the first one or, after a 401 and
    a successful refresh, the second.  [None] is every other outcome. *)
Definition verified_profile (API_BASE_URL : string) (net : Transport) (w : World)
  : option JSVal :=
  let me := me_request API_BASE_URL in
  let w1 := log_request me w in
  let w2 := log_request (refresh_request API_BASE_URL) w1 in
  match net (requests w) me with
  | Fault _ => None
  | Resp r =>
      if status r =? 401 then
        match net (requests w1) (refresh_request API_BASE_URL) with
        | Fault _ => None
        | Resp rr =>
            if ok rr then
              match net (requests w2) me with
              | Fault _ => None
              | Resp r2 => if ok r2 then readable r2 else None
              end
            else None
        end
      else if ok r then readable r else None
  end.

(** The session when [hydrate] has recorded an error and touched neither
    the user nor the flag. *)
Definition kept_with_error (a : AuthState) (msg : string) : AuthState :=
  {| user := user a; isAuthenticated := isAuthenticated a;
     loading := false; error := JStr msg |}.

(** The actions of the product store that talk to the API. *)
Inductive Action : Type :=
| FetchProducts
| CreateProduct (productData : JSVal)
| UpdateProduct (productId productData : JSVal)
| DeleteProduct (productId : JSVal).

Definition dispatch (API_BASE_URL : string) (net : Transport)
    (JSON_stringify : JSVal -> option string) (a : Action) : M JSVal :=
  match a with
  | FetchProducts => ProductStore.fetchProducts API_BASE_URL net
  | CreateProduct d => ProductStore.createProduct API_BASE_URL net JSON_stringify d
  | UpdateProduct i d => ProductStore.updateProduct API_BASE_URL net JSON_stringify i d
  | DeleteProduct i => ProductStore.deleteProduct API_BASE_URL net i
  end.

(** The request each action hands to [fetch]. *)
Definition action_request (API_BASE_URL : string)
    (JSON_stringify : JSVal -> option string) (a : Action) : Request :=
  match a with
  | FetchProducts =>
      mkRequest (ProductStore.products_url API_BASE_URL) (plain_init "GET" None)
  | CreateProduct d =>
      mkRequest (ProductStore.products_url API_BASE_URL)
                (plain_init "POST" (JSON_stringify d))
  | UpdateProduct i d =>
      mkRequest (ProductStore.product_url API_BASE_URL i)
                (plain_init "PUT" (JSON_stringify d))
  | DeleteProduct i =>
      mkRequest (ProductStore.product_url API_BASE_URL i) (plain_init "DELETE" None)
  end.

(** Transports for the runs examined below. *)
Definition expired_then_refreshed : Transport := scripted [reply 401; reply 200; reply 500].
Definition expired_for_good : Transport := scripted [reply 401; reply 401].
Definition refresh_offline : Transport := scripted [reply 401; offline].
Definition retry_offline : Transport := scripted [reply 401; reply 200; offline].
Definition server_error : Transport := scripted [reply 500].
Definition unauthorized : Transport := scripted [reply 401].

(** A caller that asks for no credentials and sends a header of its own. *)
Definition custom_options : RequestInit :=
  {| method := Some "PATCH"; credentials := Some "omit";
     headers := Some {[ "X-Trace" := "abc" ]}; body := Some "{}"; other := ∅ |}.

(** A serializer for the runs below: every value prints as an empty object. *)
Definition stringify_empty (v : JSVal) : option string := Some "{}".

(** ** Further code: callers and the route middleware *)

(** A caller that awaits one call of [fetchWithAuth] after the other and
    collects the responses; a rejected call ends the sequence. *)
Fixpoint fetch_all (API_BASE_URL : string) (net : Transport)
    (calls : list (string * RequestInit)) : M (list Response) :=
  match calls with
  | [] => ret []
  | (url, options) :: rest =>
      r <- fetchWithAuth API_BASE_URL net url options ;;
      rs <- fetch_all API_BASE_URL net rest ;;
      ret (r :: rs)
  end.

(** The three fragments [isAuthEndpoint] looks for. *)
Definition auth_fragments : list string :=
  ["/auth/login/"; "/auth/refresh/"; "/auth/logout/"].

(** A transport that answers every request with the same status. *)
Definition always (code : Z) : Transport := fun _ _ => reply code.

(** A URL of a resource that mentions the login path in its query. *)
Definition orders_after_login_url : string :=
  base +:+ "/api/orders/?next=/auth/login/".

(** The session after a successful verification. *)
Definition signed_in_as (u : JSVal) : AuthState :=
  {| user := u; isAuthenticated := true; loading := false; error := JNull |}.

(** /me answers 401, the refresh is accepted, /me then returns the profile. *)
Definition recovered : Transport :=
  scripted [reply 401; reply 200; Resp (mkResponse 200 (Ok alice))].

(** The values on which a property read throws. *)
Definition nullish (v : JSVal) : bool :=
  match v with
  | JUndefined | JNull => true
  | _ => false
  end.

(** Whether the entry [p] of the product list is the one [productId] names:
    [p.id === productId]. *)
Definition has_id (productId p : JSVal) : bool :=
  strict_eq (opt_member p "id") productId.

(** Whether an action changes the product list on the server. *)
Definition mutating (a : Action) : bool :=
  match a with
  | FetchProducts => false
  | _ => true
  end.

(** Whether the code has a branch of its own for a 403 answer to [a]. *)
Definition names_forbidden (a : Action) : bool :=
  match a with
  | UpdateProduct _ _ | DeleteProduct _ => true
  | _ => false
  end.

(** Two products and the transports of the runs below. *)
Definition pen : JSVal := JObj [("id", JNum 12); ("name", JStr "pen")].
Definition ink : JSVal := JObj [("id", JNum 13); ("name", JStr "ink")].

Definition with_product_list (ps : list JSVal) : World :=
  with_products {| products := JArr ps; p_loading := false; p_error := JNull |} browser.

Definition created_then_deleted : Transport :=
  scripted [Resp (mkResponse 201 (Ok pen)); reply 204].

Definition rejected_with_detail : Transport :=
  scripted [Resp (mkResponse 400 (Ok (JObj [("detail", JStr "Price must be positive")])))].

(** The message each action falls back to when the server gives no detail. *)
Definition fallback_message (a : Action) : string :=
  match a with
  | FetchProducts => "Failed to fetch products"
  | CreateProduct _ => "Failed to create product"
  | UpdateProduct _ _ => "Failed to update product"
  | DeleteProduct _ => "Failed to delete product"
  end.

(** The product store at rest with the given list and error. *)
Definition at_rest (ps err : JSVal) : ProductState :=
  {| products := ps; p_loading := false; p_error := err |}.

(** One action after the other. *)
Definition and_then (first second : M JSVal) : M JSVal :=
  _ <- first ;; second.

Definition listing : Transport :=
  scripted [Resp (mkResponse 200 (Ok (JArr [pen; ink])))].

Definition deleted : Transport := scripted [reply 204].

Definition marker : JSVal := JObj [("id", JNum 12); ("name", JStr "marker")].

Definition renamed : Transport := scripted [Resp (mkResponse 200 (Ok marker))].

(** ** The route middleware (middleware.js) *)

(** What the middleware reads of a request: the path and the names of the
    cookies it carries. *)
Record NextRequest : Type := mkNextRequest {
  pathname : string;
  cookies : gset string
}.

(** [NextResponse.redirect(new URL(path, request.url))] or
    [NextResponse.next()]. *)
Inductive NextResponse : Type :=
| Redirect (path : string)
| Next.

(** [routes.includes(path)] on an array of strings. *)
Definition array_includes (routes : list string) (path : string) : bool :=
  existsb (String.eqb path) routes.

Definition PROTECTED_ROUTES : list string := ["/dashboard"].

Definition AUTH_ROUTES : list string := ["/login"; "/register"].

Definition middleware (request : NextRequest) : NextResponse :=
  let hasAccessToken := bool_decide ("access_token" ∈ cookies request) in
  if hasAccessToken && array_includes AUTH_ROUTES (pathname request) then
    Redirect "/dashboard"
  else if negb hasAccessToken && array_includes PROTECTED_ROUTES (pathname request) then
    Redirect "/login"
  else Next.

(** The request a browser sends when it follows a redirect: the new path,
    the cookies it had. *)
Definition follow (request : NextRequest) (path : string) : NextRequest :=
  {| pathname := path; cookies := cookies request |}.

Definition visitor (path : string) : NextRequest :=
  {| pathname := path; cookies := ∅ |}.

Definition member_visit (path : string) : NextRequest :=
  {| pathname := path; cookies := {[ "access_token"; "refresh_token" ]} |}.

(** ** Event handlers of the pages *)

(** A handler of a React component works on the component's state [S] and
    on the world. *)
Definition UI (S A : Type) : Type := S -> World -> Result A * (S * World).

Definition ui_ret {S A} (a : A) : UI S A := fun s w => (Ok a, (s, w)).

Definition ui_bind {S A B} (m : UI S A) (k : A -> UI S B) : UI S B :=
  fun s w =>
    match m s w with
    | (Ok a, (s', w')) => k a s' w'
    | (Throw e, sw) => (Throw e, sw)
    end.

Definition ui_try {S A} (m : UI S A) (h : Error -> UI S A) : UI S A :=
  fun s w =>
    match m s w with
    | (Ok a, sw) => (Ok a, sw)
    | (Throw e, (s', w')) => h e s' w'
    end.

Definition ui_finally {S A} (m : UI S A) (f : UI S unit) : UI S A :=
  fun s w =>
    match m s w with
    | (res, (s', w')) =>
        match f s' w' with
        | (Ok _, sw) => (res, sw)
        | (Throw e, sw) => (Throw e, sw)
        end
    end.

(** A computation on the world alone, run from a handler. *)
Definition ui_lift {S A} (m : M A) : UI S A :=
  fun s w => match m w with (res, w') => (res, (s, w')) end.

(** A state setter of [useState], or [router.push]. *)
Definition ui_set {S} (f : S -> S) : UI S unit := fun s w => (Ok tt, (f s, w)).

Declare Scope ui_scope.
Delimit Scope ui_scope with ui.
Notation "x <~ m ;; k" := (ui_bind m (fun x => k))
  (at level 100, m at next level, right associativity) : ui_scope.
Notation "m ;;; k" := (ui_bind m (fun _ => k))
  (at level 100, right associativity) : ui_scope.

(** [err.message || "An error occurred"] *)
Definition message_or (e : Error) (fallback : string) : JSVal :=
  js_or (JStr (message e)) (JStr fallback).

(** *** The dashboard page: logout *)
Module DashboardPage.

Record State : Type := mkState {
  loggingOut : bool;
  logoutError : JSVal;
  pushed : list string              (* router.push *)
}.

Definition setLoggingOut (b : bool) : UI State unit :=
  ui_set (fun s => {| loggingOut := b; logoutError := logoutError s;
                      pushed := pushed s |}).

Definition setLogoutError (e : JSVal) : UI State unit :=
  ui_set (fun s => {| loggingOut := loggingOut s; logoutError := e;
                      pushed := pushed s |}).

Definition router_push (path : string) : UI State unit :=
  ui_set (fun s => {| loggingOut := loggingOut s; logoutError := logoutError s;
                      pushed := pushed s ++ [path] |}).

Section Page.

Variable API_BASE_URL : string.
Variable net : Transport.

Definition logout_url : string := API_BASE_URL +:+ "/api/auth/logout/".

Definition handleLogout : UI State unit :=
  (setLoggingOut true ;;;
   setLogoutError (JStr "") ;;;
   ui_finally
     (ui_try
        (response <~ ui_lift (fetch net logout_url (plain_init "POST" None)) ;;
         if negb (ok response) then
           setLogoutError (JStr "Logout failed")
         else
           ui_lift AuthStore.clearAuth ;;;
           router_push "/")
        (fun err => setLogoutError (message_or err "An error occurred")))
     (setLoggingOut false))%ui.

End Page.
End DashboardPage.

(** *** The login page *)
Module LoginPage.

Record State : Type := mkState {
  loading : bool;
  error : JSVal;
  pushed : list string              (* router.push *)
}.

Definition setLocalLoading (b : bool) : UI State unit :=
  ui_set (fun s => {| loading := b; error := error s; pushed := pushed s |}).

Definition setLocalError (e : JSVal) : UI State unit :=
  ui_set (fun s => {| loading := loading s; error := e; pushed := pushed s |}).

Definition router_push (path : string) : UI State unit :=
  ui_set (fun s => {| loading := loading s; error := error s;
                      pushed := pushed s ++ [path] |}).

Section Page.

Variable API_BASE_URL : string.
Variable net : Transport.
Variable JSON_stringify : JSVal -> option string.

Definition login_endpoint : string := API_BASE_URL +:+ "/api/auth/login/".

(** [{ email, password }] *)
Definition credentials_of (email password : string) : JSVal :=
  JObj [("email", JStr email); ("password", JStr password)].

Definition login_request (email password : string) : Request :=
  mkRequest login_endpoint
    (plain_init "POST" (JSON_stringify (credentials_of email password))).

Definition handleSubmit (email password : string) : UI State unit :=
  (setLocalLoading true ;;;
   setLocalError (JStr "") ;;;
   ui_finally
     (ui_try
        (response <~ ui_lift (fetch net login_endpoint
                                (plain_init "POST"
                                   (JSON_stringify (credentials_of email password)))) ;;
         if negb (ok response) then
           data <~ ui_lift (json response) ;;
           detail <~ ui_lift (get data "detail") ;;
           setLocalError (js_or detail (JStr "Login failed"))
         else
           userResponse <~ ui_lift (fetch net (me_url API_BASE_URL) me_init) ;;
           if ok userResponse then
             u <~ ui_lift (json userResponse) ;;
             ui_lift (AuthStore.setUser u) ;;;
             router_push "/dashboard"
           else
             setLocalError (JStr "Failed to fetch user profile"))
        (fun err => setLocalError (message_or err "An error occurred")))
     (setLocalLoading false))%ui.

End Page.
End LoginPage.

(** A dashboard that is idle and a login form that is idle. *)
Definition dashboard_idle : DashboardPage.State :=
  {| DashboardPage.loggingOut := false; DashboardPage.logoutError := JStr "";
     DashboardPage.pushed := [] |}.

Definition login_idle : LoginPage.State :=
  {| LoginPage.loading := false; LoginPage.error := JStr "";
     LoginPage.pushed := [] |}.

(** A tab in which nobody is signed in. *)
Definition anonymous : World := with_auth signed_out browser.

Definition login_accepted : Transport :=
  scripted [reply 200; Resp (mkResponse 200 (Ok alice))].

Definition login_refused : Transport :=
  scripted [Resp (mkResponse 401 (Ok (JObj [("detail", JStr "Invalid credentials")])))].

Definition logout_accepted : Transport := scripted [reply 200].

(** The profile a submission of the login form ends with, read off the
    transport: the readable body of a successful /me that follows a
    successful login. *)
Definition login_profile (API_BASE_URL : string) (net : Transport)
    (JSON_stringify : JSVal -> option string) (email password : string)
    (w : World) : option JSVal :=
  let login := LoginPage.login_request API_BASE_URL JSON_stringify email password in
  match net (requests w) login with
  | Fault _ => None
  | Resp r =>
      if ok r then
        match net (requests w ++ [login]) (me_request API_BASE_URL) with
        | Fault _ => None
        | Resp r2 => if ok r2 then readable r2 else None
        end
      else None
  end.

(** The session after [setUser(u)]. *)
Definition session_of (u : JSVal) (a : AuthState) : AuthState :=
  {| user := u; isAuthenticated := truthy u; loading := loading a; error := JNull |}.

(** Two runs that end alike in what they return, in the session and in the
    requests they have sent. *)
Definition same_outcome {A} (x y : Result A * World) : Prop :=
  fst x = fst y /\
  auth (snd x) = auth (snd y) /\
  requests (snd x) = requests (snd y).

(** The entry "auth-store" is the persisted copy of the session. *)
Definition entry_in_step (w : World) : Prop :=
  localStorage w !! "auth-store" = Some (persist_text (auth w)).

(** ** Strings and request logs *)

Lemma includes_prefixed (t front s : string) :
  includes t s = true -> includes t (front +:+ s) = true.
Proof.
  intros H. induction front as [|c front IH]; [exact H|].
  change (includes t (String c front +:+ s))
    with (String.prefix t (String c (front +:+ s)) || includes t (front +:+ s)).
  rewrite IH. apply orb_true_r.
Qed.

Lemma append_inv_head (front a b : string) : front +:+ a = front +:+ b -> a = b.
Proof. induction front; simpl; intros H; [exact H | injection H; auto]. Qed.

Lemma refresh_url_is_auth (API_BASE_URL : string) :
  isAuthEndpoint (refresh_url API_BASE_URL) = true.
Proof.
  unfold isAuthEndpoint, refresh_url.
  rewrite (includes_prefixed "/auth/refresh/" API_BASE_URL) by reflexivity.
  now rewrite orb_true_r.
Qed.

Lemma retryable_not_refresh (API_BASE_URL url : string) :
  isAuthEndpoint url = false -> url <> refresh_url API_BASE_URL.
Proof. intros H ->. rewrite refresh_url_is_auth in H. discriminate. Qed.

Lemma issued_app {A} (m : M A) (w : World) (new : list Request) :
  requests (snd (m w)) = requests w ++ new -> issued m w = new.
Proof. unfold issued. intros ->. apply drop_app_length. Qed.

Lemma requests_to_cons (u : string) (r : Request) (l : list Request) :
  requests_to u (r :: l) =
  ((if decide (req_url r = u) then 1 else 0) + requests_to u l)%nat.
Proof. unfold requests_to. rewrite filter_cons. now destruct (decide _). Qed.

(** ** fetchWithAuth, path by path *)

Section FetchWithAuthPaths.

Variable API_BASE_URL : string.
Variable net : Transport.
Variables (url : string) (options : RequestInit) (w : World).

Let orig : Request := original url options.
Let refresh : Request := refresh_request API_BASE_URL.
Let w1 : World := log_request orig w.
Let w2 : World := log_request refresh w1.
Let w3 : World := log_request orig w2.

Lemma fetch_returns (u : string) (init : RequestInit) (v : World) (r : Response) :
  net (requests v) (mkRequest u init) = Resp r ->
  fetch net u init v = (Ok r, log_request (mkRequest u init) v).
Proof. unfold fetch. now intros ->. Qed.

Lemma fetch_rejects (u : string) (init : RequestInit) (v : World) (e : Error) :
  net (requests v) (mkRequest u init) = Fault e ->
  fetch net u init v = (Throw e, log_request (mkRequest u init) v).
Proof. unfold fetch. now intros ->. Qed.

Lemma first_fault (e : Error) :
  net (requests w) orig = Fault e ->
  fetchWithAuth API_BASE_URL net url options w = (Throw e, w1).
Proof.
  intros H. subst orig w1. unfold fetchWithAuth, bind, original in *.
  now rewrite (fetch_rejects _ _ _ _ H).
Qed.

Lemma passthrough (r1 : Response) :
  net (requests w) orig = Resp r1 ->
  negb (status r1 =? 401) || isAuthEndpoint url = true ->
  fetchWithAuth API_BASE_URL net url options w = (Ok r1, w1).
Proof.
  intros H Hskip. subst orig w1. unfold fetchWithAuth, bind, original in *.
  rewrite (fetch_returns _ _ _ _ H). now rewrite Hskip.
Qed.

Lemma refresh_refused (r1 rr : Response) :
  net (requests w) orig = Resp r1 ->
  negb (status r1 =? 401) || isAuthEndpoint url = false ->
  net (requests w1) refresh = Resp rr ->
  ok rr = false ->
  fetchWithAuth API_BASE_URL net url options w = (Ok rr, abandon w2).
Proof.
  intros H Hgo Hr Hok. subst orig refresh w1 w2 w3.
  unfold fetchWithAuth, bind, try_catch, refresh_request, original in *.
  rewrite (fetch_returns _ _ _ _ H), Hgo.
  rewrite (fetch_returns _ _ _ _ Hr), Hok.
  unfold abandon, AuthStore.clearAuth, authSet, redirect, ret. simpl.
  now destruct (has_window w).
Qed.

Lemma refresh_faulted (r1 : Response) (e : Error) :
  net (requests w) orig = Resp r1 ->
  negb (status r1 =? 401) || isAuthEndpoint url = false ->
  net (requests w1) refresh = Fault e ->
  fetchWithAuth API_BASE_URL net url options w = on_refresh_fault e w2.
Proof.
  intros H Hgo Hr. subst orig refresh w1 w2 w3.
  unfold fetchWithAuth, bind, try_catch, refresh_request, original in *.
  rewrite (fetch_returns _ _ _ _ H), Hgo.
  now rewrite (fetch_rejects _ _ _ _ Hr).
Qed.

Lemma retried (r1 rr r2 : Response) :
  net (requests w) orig = Resp r1 ->
  negb (status r1 =? 401) || isAuthEndpoint url = false ->
  net (requests w1) refresh = Resp rr ->
  ok rr = true ->
  net (requests w2) orig = Resp r2 ->
  fetchWithAuth API_BASE_URL net url options w = (Ok r2, w3).
Proof.
  intros H Hgo Hr Hok H2. subst orig refresh w1 w2 w3.
  unfold fetchWithAuth, bind, try_catch, refresh_request, original in *.
  rewrite (fetch_returns _ _ _ _ H), Hgo.
  rewrite (fetch_returns _ _ _ _ Hr), Hok.
  now rewrite (fetch_returns _ _ _ _ H2).
Qed.

Lemma retry_faulted (r1 rr : Response) (e : Error) :
  net (requests w) orig = Resp r1 ->
  negb (status r1 =? 401) || isAuthEndpoint url = false ->
  net (requests w1) refresh = Resp rr ->
  ok rr = true ->
  net (requests w2) orig = Fault e ->
  fetchWithAuth API_BASE_URL net url options w = on_refresh_fault e w3.
Proof.
  intros H Hgo Hr Hok H2. subst orig refresh w1 w2 w3.
  unfold fetchWithAuth, bind, try_catch, refresh_request, original in *.
  rewrite (fetch_returns _ _ _ _ H), Hgo.
  rewrite (fetch_returns _ _ _ _ Hr), Hok.
  now rewrite (fetch_rejects _ _ _ _ H2).
Qed.

(** What the catch block does to a world. *)
Lemma on_refresh_fault_run (e : Error) (v : World) :
  on_refresh_fault e v =
  (Throw e, abandon (with_console (console v ++ ["Token refresh failed: " +:+ message e]) v)).
Proof.
  unfold on_refresh_fault, bind, console_error, AuthStore.clearAuth, authSet,
    redirect, throw, abandon. simpl.
  now destruct (has_window v).
Qed.

Lemma abandon_requests (v : World) : requests (abandon v) = requests v.
Proof. unfold abandon, redirect. simpl. now destruct (has_window v). Qed.

Lemma abandon_auth (v : World) : auth (abandon v) = cleared.
Proof. unfold abandon, redirect. simpl. now destruct (has_window v). Qed.

Lemma abandon_navigation (v : World) :
  navigation (abandon v) =
  if has_window v then navigation v ++ ["/login"] else navigation v.
Proof. unfold abandon, redirect. simpl. now destruct (has_window v). Qed.


Lemma retryable_iff (r1 : Response) :
  negb (status r1 =? 401) || isAuthEndpoint url = false <->
  status r1 = 401 /\ isAuthEndpoint url = false.
Proof.
  rewrite orb_false_iff, negb_false_iff, Z.eqb_eq. tauto.
Qed.

End FetchWithAuthPaths.

(** ** The contract of fetchWithAuth *)

Section FetchWithAuthContract.

Variable API_BASE_URL : string.
Variable net : Transport.

Local Abbreviation run url options w := (fetchWithAuth API_BASE_URL net url options w).
Local Abbreviation refresh := (refresh_request API_BASE_URL).

Lemma count_three (url : string) (options : RequestInit) :
  isAuthEndpoint url = false ->
  requests_to url [original url options; refresh; original url options] = 2%nat /\
  requests_to (refresh_url API_BASE_URL)
    [original url options; refresh; original url options] = 1%nat.
Proof.
  intros Hurl. pose proof (retryable_not_refresh API_BASE_URL url Hurl) as Hne.
  rewrite !requests_to_cons. unfold requests_to, original, refresh_request. simpl.
  repeat case_decide; try congruence; auto.
Qed.

Lemma count_two (url : string) (options : RequestInit) :
  isAuthEndpoint url = false ->
  requests_to url [original url options; refresh] = 1%nat /\
  requests_to (refresh_url API_BASE_URL) [original url options; refresh] = 1%nat.
Proof.
  intros Hurl. pose proof (retryable_not_refresh API_BASE_URL url Hurl) as Hne.
  rewrite !requests_to_cons. unfold requests_to, original, refresh_request. simpl.
  repeat case_decide; try congruence; auto.
Qed.

(** C1.  A call to a URL that is not a credential-issuing endpoint, whose
    first answer is a 401 and whose refresh POST answers with a success
    status, issues exactly the original request, the refresh request and
    the original request again (same URL, method, body and headers: the
    same [Request]); two requests go to the URL and one to the refresh
    endpoint.  The second answer to the original request is returned
    whatever its status, and nothing else happens: the session and the
    navigation log are untouched. *)
Theorem refresh_then_one_retry
    (url : string) (options : RequestInit) (w : World) (r1 rr r2 : Response) :
  let orig := original url options in
  let w1 := log_request orig w in
  let w2 := log_request refresh w1 in
  isAuthEndpoint url = false ->
  net (requests w) orig = Resp r1 -> status r1 = 401 ->
  net (requests w1) refresh = Resp rr -> ok rr = true ->
  net (requests w2) orig = Resp r2 ->
  fst (run url options w) = Ok r2 /\
  issued (fetchWithAuth API_BASE_URL net url options) w = [orig; refresh; orig] /\
  requests_to url (issued (fetchWithAuth API_BASE_URL net url options) w) = 2%nat /\
  requests_to (refresh_url API_BASE_URL)
    (issued (fetchWithAuth API_BASE_URL net url options) w) = 1%nat /\
  auth (snd (run url options w)) = auth w /\
  navigation (snd (run url options w)) = navigation w.
Proof.
  intros orig w1 w2 Hurl H1 H401 Hr Hok H2.
  assert (Hgo : negb (status r1 =? 401) || isAuthEndpoint url = false)
    by (apply retryable_iff; auto).
  assert (Hlog : issued (fetchWithAuth API_BASE_URL net url options) w
                 = [orig; refresh; orig]).
  { apply issued_app.
    rewrite (retried API_BASE_URL net url options w r1 rr r2 H1 Hgo Hr Hok H2).
    simpl. now rewrite <- !app_assoc. }
  rewrite Hlog.
  rewrite (retried API_BASE_URL net url options w r1 rr r2 H1 Hgo Hr Hok H2).
  destruct (count_three url options Hurl) as [Hc1 Hc2].
  repeat split; auto.
Qed.

(** C2.  A call to a URL that is not a credential-issuing endpoint, whose
    first answer is a 401 and whose refresh fails, has issued exactly one
    request to the URL and one to the refresh endpoint and leaves the
    session cleared.  When the refresh answered with a non-success status
    that response is returned; when the refresh attempt faulted the fault is
    thrown to the caller. *)
Theorem refresh_failure_ends_session
    (url : string) (options : RequestInit) (w : World) (r1 : Response)
    (refreshed : Outcome) :
  let orig := original url options in
  let w1 := log_request orig w in
  isAuthEndpoint url = false ->
  net (requests w) orig = Resp r1 -> status r1 = 401 ->
  net (requests w1) refresh = refreshed ->
  match refreshed with Resp rr => ok rr = false | Fault _ => True end ->
  fst (run url options w) =
    match refreshed with Resp rr => Ok rr | Fault e => Throw e end /\
  issued (fetchWithAuth API_BASE_URL net url options) w = [orig; refresh] /\
  requests_to url (issued (fetchWithAuth API_BASE_URL net url options) w) = 1%nat /\
  requests_to (refresh_url API_BASE_URL)
    (issued (fetchWithAuth API_BASE_URL net url options) w) = 1%nat /\
  auth (snd (run url options w)) = cleared /\
  isAuthenticated (auth (snd (run url options w))) = false /\
  user (auth (snd (run url options w))) = JNull.
Proof.
  intros orig w1 Hurl H1 H401 Hr Hfail.
  assert (Hgo : negb (status r1 =? 401) || isAuthEndpoint url = false)
    by (apply retryable_iff; auto).
  destruct (count_two url options Hurl) as [Hc1 Hc2].
  assert (Hrun : run url options w =
                 (match refreshed with Resp rr => Ok rr | Fault e => Throw e end,
                  snd (run url options w)) /\
                 requests (snd (run url options w)) = requests w ++ [orig; refresh] /\
                 auth (snd (run url options w)) = cleared).
  { destruct refreshed as [rr|e].
    - rewrite (refresh_refused API_BASE_URL net url options w r1 rr H1 Hgo Hr Hfail).
      simpl. rewrite abandon_requests, abandon_auth. simpl.
      now rewrite <- app_assoc.
    - rewrite (refresh_faulted API_BASE_URL net url options w r1 e H1 Hgo Hr).
      rewrite on_refresh_fault_run. simpl.
      rewrite abandon_requests, abandon_auth. simpl.
      now rewrite <- app_assoc. }
  destruct Hrun as (Hres & Hreq & Hauth).
  rewrite (issued_app _ _ _ Hreq), Hauth.
  rewrite Hres at 1.
  repeat split; auto.
Qed.

(** C3.  When the first answer is not a 401, or the URL contains the login,
    refresh or logout path, the first response is returned as it is: one
    request has been issued, none to refresh (unless the call itself
    targets it) and none again, and the stores, the navigation log and the
    console are as before.  A 401 from login, refresh or logout is
    therefore returned without any retry. *)
Theorem first_response_returned
    (url : string) (options : RequestInit) (w : World) (r1 : Response) :
  net (requests w) (original url options) = Resp r1 ->
  status r1 <> 401 \/
  includes "/auth/login/" url = true \/
  includes "/auth/refresh/" url = true \/
  includes "/auth/logout/" url = true ->
  run url options w = (Ok r1, log_request (original url options) w) /\
  issued (fetchWithAuth API_BASE_URL net url options) w = [original url options] /\
  auth (snd (run url options w)) = auth w /\
  navigation (snd (run url options w)) = navigation w /\
  console (snd (run url options w)) = console w.
Proof.
  intros H1 Hskip.
  assert (Hs : negb (status r1 =? 401) || isAuthEndpoint url = true).
  { unfold isAuthEndpoint.
    destruct Hskip as [Hne | [Hl | [Hr | Ho]]].
    - apply Z.eqb_neq in Hne. now rewrite Hne.
    - rewrite Hl. simpl. apply orb_true_r.
    - rewrite Hr. rewrite !orb_true_r. reflexivity.
    - rewrite Ho. rewrite !orb_true_r. reflexivity. }
  rewrite (passthrough API_BASE_URL net url options w r1 H1 Hs).
  assert (Hi : issued (fetchWithAuth API_BASE_URL net url options) w
               = [original url options]).
  { apply issued_app.
    now rewrite (passthrough API_BASE_URL net url options w r1 H1 Hs). }
  rewrite Hi. repeat split; auto.
Qed.

(** Case analysis over the answers of the transport, one goal per path of
    [fetchWithAuth], each with the run rewritten to its result. *)
Ltac by_paths url options w :=
  let r1 := fresh "r1" in let rr := fresh "rr" in let r2 := fresh "r2" in
  let e := fresh "e" in
  let H1 := fresh "H1" in let Hgo := fresh "Hgo" in let Hr := fresh "Hr" in
  let Hok := fresh "Hok" in let H2 := fresh "H2" in
  destruct (net (requests w) (original url options)) as [r1|e] eqn:H1;
  [ destruct (negb (status r1 =? 401) || isAuthEndpoint url) eqn:Hgo;
    [ rewrite ?(passthrough API_BASE_URL net url options w r1 H1 Hgo)
    | destruct (net (requests (log_request (original url options) w)) refresh)
        as [rr|e] eqn:Hr;
      [ destruct (ok rr) eqn:Hok;
        [ destruct (net (requests (log_request refresh
                          (log_request (original url options) w)))
                        (original url options)) as [r2|e] eqn:H2;
          [ rewrite ?(retried API_BASE_URL net url options w r1 rr r2 H1 Hgo Hr Hok H2)
          | rewrite ?(retry_faulted API_BASE_URL net url options w r1 rr e H1 Hgo Hr Hok H2),
              ?on_refresh_fault_run ]
        | rewrite ?(refresh_refused API_BASE_URL net url options w r1 rr H1 Hgo Hr Hok) ]
      | rewrite ?(refresh_faulted API_BASE_URL net url options w r1 e H1 Hgo Hr),
          ?on_refresh_fault_run ] ]
  | rewrite ?(first_fault API_BASE_URL net url options w e H1) ].

(** The request log after a run, on every path. *)
Lemma log_shape (url : string) (options : RequestInit) (w : World) :
  let orig := original url options in
  requests (snd (run url options w)) = requests w ++ [orig] \/
  isAuthEndpoint url = false /\
  (requests (snd (run url options w)) = requests w ++ [orig; refresh] \/
   requests (snd (run url options w)) = requests w ++ [orig; refresh; orig]).
Proof.
  intros orig.
  by_paths url options w; simpl; rewrite ?abandon_requests; simpl;
    rewrite <- ?app_assoc; auto;
    apply retryable_iff in Hgo; destruct Hgo; auto.
Qed.

(** C4.  Whatever the transport answers (statuses or faults, in any
    order), a call returns or throws after issuing one, two or three
    requests: the original request, then at most one refresh request, then
    at most one repetition of the original request.  At most one request
    goes to the refresh endpoint and at most two to the URL of the call. *)
Theorem bounded_refresh_and_retry
    (url : string) (options : RequestInit) (w : World) :
  let orig := original url options in
  let new := issued (fetchWithAuth API_BASE_URL net url options) w in
  (exists res w', run url options w = (res, w')) /\
  requests (snd (run url options w)) = requests w ++ new /\
  (new = [orig] \/ new = [orig; refresh] \/ new = [orig; refresh; orig]) /\
  (length new <= 3)%nat /\
  (requests_to (refresh_url API_BASE_URL) new <= 1)%nat /\
  (requests_to url new <= 2)%nat.
Proof.
  intros orig new. split.
  { destruct (run url options w) as [res w']. eauto. }
  destruct (log_shape url options w) as [H | [Hurl [H | H]]];
    fold orig in H; subst new; rewrite (issued_app _ _ _ H).
  - repeat split; auto; unfold requests_to; simpl;
      rewrite ?filter_cons, ?filter_nil; repeat case_decide; simpl; lia.
  - destruct (count_two url options Hurl) as [Hc1 Hc2]. fold orig in Hc1, Hc2.
    rewrite Hc1, Hc2. repeat split; auto; simpl; lia.
  - destruct (count_three url options Hurl) as [Hc1 Hc2]. fold orig in Hc1, Hc2.
    rewrite Hc1, Hc2. repeat split; auto; simpl; lia.
Qed.


(** C8.  Every request a call issues is the original request or the
    refresh request, and both carry [credentials: "include"], whatever the
    caller put in its own credentials field.  The original request keeps
    the caller's method, body and headers and gains only the default
    Content-Type; the refresh request has no body and no header but
    Content-Type: the executor adds no token field of its own. *)
Theorem credentials_always_included
    (url : string) (options : RequestInit) (w : World) :
  let orig := original url options in
  Forall (fun r => (r = orig \/ r = refresh) /\
                   credentials (req_init r) = Some "include")
         (issued (fetchWithAuth API_BASE_URL net url options) w) /\
  method (req_init orig) = method options /\
  body (req_init orig) = body options /\
  (forall k v, spread_headers options !! k = Some v ->
               default ∅ (headers (req_init orig)) !! k = Some v) /\
  (forall k, spread_headers options !! k = None ->
             default ∅ (headers (req_init orig)) !! k = json_headers !! k) /\
  body (req_init refresh) = None /\
  headers (req_init refresh) = Some json_headers.
Proof.
  intros orig. split.
  { destruct (log_shape url options w) as [H | [_ [H | H]]];
      rewrite (issued_app _ _ _ H);
      repeat (apply List.Forall_cons || apply List.Forall_nil);
      (split; [first [left; reflexivity | right; reflexivity] | reflexivity]). }
  simpl. repeat split; auto.
  - intros k v Hk. now apply lookup_union_Some_l.
  - intros k Hk. now rewrite lookup_union_r.
Qed.

(** C9.  When the first answer is a 401 from a retryable URL, the refresh
    succeeds and the retried request faults, the fault lands in the catch
    block that also handles refresh faults: the run is the run of that
    block after three requests.  The fault is thrown to the caller, no
    response is returned, the session is cleared and, where a window
    exists, "/login" is assigned to its location. *)
Theorem retry_fault_ends_session
    (url : string) (options : RequestInit) (w : World) (r1 rr : Response)
    (e : Error) :
  let orig := original url options in
  let w1 := log_request orig w in
  let w2 := log_request refresh w1 in
  let w3 := log_request orig w2 in
  isAuthEndpoint url = false ->
  net (requests w) orig = Resp r1 -> status r1 = 401 ->
  net (requests w1) refresh = Resp rr -> ok rr = true ->
  net (requests w2) orig = Fault e ->
  run url options w = on_refresh_fault e w3 /\
  fst (run url options w) = Throw e /\
  issued (fetchWithAuth API_BASE_URL net url options) w = [orig; refresh; orig] /\
  auth (snd (run url options w)) = cleared /\
  navigation (snd (run url options w)) =
    (if has_window w then navigation w ++ ["/login"] else navigation w).
Proof.
  intros orig w1 w2 w3 Hurl H1 H401 Hr Hok H2.
  assert (Hgo : negb (status r1 =? 401) || isAuthEndpoint url = false)
    by (apply retryable_iff; auto).
  pose proof (retry_faulted API_BASE_URL net url options w r1 rr e H1 Hgo Hr Hok H2)
    as Hrun.
  fold orig w1 w2 w3 in Hrun.
  assert (Hi : issued (fetchWithAuth API_BASE_URL net url options) w
               = [orig; refresh; orig]).
  { apply issued_app. rewrite Hrun, on_refresh_fault_run. simpl.
    rewrite abandon_requests. simpl. now rewrite <- !app_assoc. }
  rewrite Hi, Hrun, on_refresh_fault_run. simpl.
  rewrite abandon_auth, abandon_navigation. simpl.
  repeat split; auto.
Qed.

End FetchWithAuthContract.


(** ** Session hydration *)

Lemma lookup_setItem (key value : string) (s : gmap string string) :
  setItem key value s !! key = Some value.
Proof. unfold setItem. apply lookup_insert_eq. Qed.

(** The persisted text is never empty: it opens with a brace. *)
Lemma persist_text_cons (a : AuthState) :
  exists c rest, persist_text a = String c rest.
Proof. unfold persist_text. simpl. eexists _, _. reflexivity. Qed.

(** loading is not persisted. *)
Lemma persist_text_loading (b : bool) (a : AuthState) :
  persist_text (merge_auth (loading_patch b) a) = persist_text a.
Proof. reflexivity. Qed.

Section Hydration.

Variable API_BASE_URL : string.
Variable net : Transport.
Variable JSON_parse : string -> Result JSVal.

Local Abbreviation me := (me_request API_BASE_URL).
Local Abbreviation refresh := (refresh_request API_BASE_URL).
Local Abbreviation hydrate := (AuthStore.hydrate API_BASE_URL net JSON_parse).
Local Abbreviation hydrate_basic := (AuthStoreBasic.hydrate API_BASE_URL net JSON_parse).

(** The world in which [hydrate] reads the entry: loading is set and the
    entry has been rewritten from the store. *)
Local Abbreviation started w :=
  (persist_write (with_auth (merge_auth (loading_patch true) (auth w)) w)).

(** What [read_persisted] does on an entry that holds [text]. *)
Lemma read_persisted_on (v : World) (c : Ascii.ascii) (rest : string) :
  localStorage v !! "auth-store" = Some (String c rest) ->
  read_persisted JSON_parse v =
    match JSON_parse (String c rest) with
    | Throw e => (Throw e, v)
    | Ok parsed =>
        if truthy (opt_member (opt_member parsed "state") "isAuthenticated")
        then (Ok None, v)
        else (Ok (Some tt), persist_write (with_auth cleared v))
    end.
Proof.
  intros Hget. unfold read_persisted, bind, getItem. rewrite Hget.
  destruct (JSON_parse (String c rest)) as [parsed|e]; [|reflexivity].
  now destruct (truthy (opt_member (opt_member parsed "state") "isAuthenticated")).
Qed.

Lemma read_persisted_started (w : World) :
  read_persisted JSON_parse (started w) =
    match JSON_parse (persist_text (auth w)) with
    | Throw e => (Throw e, started w)
    | Ok parsed =>
        if truthy (opt_member (opt_member parsed "state") "isAuthenticated")
        then (Ok None, started w)
        else (Ok (Some tt), persist_write (with_auth cleared (started w)))
    end.
Proof.
  destruct (persist_text_cons (auth w)) as (c & rest & Htext).
  rewrite Htext. apply read_persisted_on.
  unfold persist_write. cbn [localStorage with_storage auth with_auth].
  now rewrite lookup_setItem, persist_text_loading, Htext.
Qed.

Lemma read_persisted_skips (w : World) :
  read_back JSON_parse (auth w) = Flag false ->
  read_persisted JSON_parse (started w)
  = (Ok (Some tt), persist_write (with_auth cleared (started w))).
Proof.
  unfold read_back. rewrite read_persisted_started.
  destruct (JSON_parse (persist_text (auth w))) as [parsed|e]; [|discriminate].
  intros H. injection H as ->. reflexivity.
Qed.

Lemma read_persisted_goes_on (w : World) :
  read_back JSON_parse (auth w) = Flag true ->
  read_persisted JSON_parse (started w) = (Ok None, started w).
Proof.
  unfold read_back. rewrite read_persisted_started.
  destruct (JSON_parse (persist_text (auth w))) as [parsed|e]; [|discriminate].
  intros H. injection H as ->. reflexivity.
Qed.

Lemma read_persisted_throws (w : World) :
  read_back JSON_parse (auth w) = Unreadable ->
  exists e,
    JSON_parse (persist_text (auth w)) = Throw e /\
    read_persisted JSON_parse (started w) = (Throw e, started w).
Proof.
  unfold read_back. rewrite read_persisted_started.
  destruct (JSON_parse (persist_text (auth w))) as [parsed|e]; [discriminate|].
  intros _. eauto.
Qed.

Ltac open_hydrate :=
  unfold AuthStore.hydrate, AuthStoreBasic.hydrate, AuthStore.refresh_and_retry,
    bind, finally, try_catch, authSet, console_error, ret.

(** Both hydrates when the flag read back is false. *)
Lemma hydrate_skips (w : World) :
  read_back JSON_parse (auth w) = Flag false ->
  (fst (hydrate w) = Ok tt /\
   requests (snd (hydrate w)) = requests w /\
   auth (snd (hydrate w)) = cleared) /\
  (fst (hydrate_basic w) = Ok tt /\
   requests (snd (hydrate_basic w)) = requests w /\
   auth (snd (hydrate_basic w)) = cleared).
Proof.
  intros H. open_hydrate. rewrite (read_persisted_skips w H). simpl. auto 10.
Qed.

(** Both hydrates when the text read back does not parse. *)
Lemma hydrate_unreadable (w : World) :
  read_back JSON_parse (auth w) = Unreadable ->
  exists e,
    JSON_parse (persist_text (auth w)) = Throw e /\
    (fst (hydrate w) = Ok tt /\
     requests (snd (hydrate w)) = requests w /\
     auth (snd (hydrate w)) = cleared) /\
    (fst (hydrate_basic w) = Ok tt /\
     requests (snd (hydrate_basic w)) = requests w /\
     auth (snd (hydrate_basic w)) = kept_with_error (auth w) (message e)).
Proof.
  intros H. destruct (read_persisted_throws w H) as (e & Hparse & Hread).
  exists e. split; [exact Hparse|].
  open_hydrate. rewrite Hread. simpl. auto 10.
Qed.

(** The refresh-aware hydrate once a verification is due. *)
Lemma hydrate_verifies (w : World) :
  read_back JSON_parse (auth w) = Flag true ->
  fst (hydrate w) = Ok tt /\
  auth (snd (hydrate w)) =
    match verified_profile API_BASE_URL net w with
    | Some u => signed_in_as u
    | None => cleared
    end /\
  navigation (snd (hydrate w)) = navigation w /\
  exists tail,
    requests (snd (hydrate w)) = requests w ++ me :: tail /\
    (tail = [] \/ tail = [refresh] \/ tail = [refresh; me]).
Proof.
  intros Hflag. open_hydrate.
  unfold verified_profile, fetch, me_request, refresh_request, readable, json.
  rewrite (read_persisted_goes_on w Hflag). simpl.
  destruct (net (requests w) _) as [r|e]; simpl.
  2: { repeat split. exists []. auto. }
  destruct (status r =? 401) eqn:E401; simpl.
  - destruct (net (requests w ++ _) _) as [rr|e]; simpl.
    2: { repeat split. eexists. rewrite <- app_assoc. simpl. eauto. }
    destruct (ok rr); simpl.
    2: { repeat split. eexists. rewrite <- app_assoc. simpl. eauto. }
    destruct (net ((requests w ++ _) ++ _) _) as [r2|e]; simpl.
    2: { repeat split. eexists. rewrite <- !app_assoc. simpl. eauto. }
    destruct (ok r2); simpl.
    2: { repeat split. eexists. rewrite <- !app_assoc. simpl. eauto. }
    destruct (payload r2); simpl;
      repeat split; eexists; rewrite <- !app_assoc; simpl; eauto.
  - destruct (ok r); simpl.
    2: { repeat split. exists []. auto. }
    destruct (payload r); simpl; repeat split; exists []; auto.
Qed.

(** The hydrate without refresh once a verification is due. *)
Lemma basic_hydrate_verifies (w : World) :
  read_back JSON_parse (auth w) = Flag true ->
  fst (hydrate_basic w) = Ok tt /\
  requests (snd (hydrate_basic w)) = requests w ++ [me] /\
  auth (snd (hydrate_basic w)) =
    match net (requests w) me with
    | Fault e => kept_with_error (auth w) (message e)
    | Resp r =>
        if ok r then
          match payload r with
          | Ok u => signed_in_as u
          | Throw e => kept_with_error (auth w) (message e)
          end
        else if status r =? 401 then cleared
        else kept_with_error (auth w) "Failed to hydrate auth state"
    end.
Proof.
  intros Hflag. open_hydrate. unfold fetch, me_request, json.
  rewrite (read_persisted_goes_on w Hflag). simpl.
  destruct (net (requests w) _) as [r|e]; simpl; [|auto].
  destruct (ok r); simpl.
  - destruct (payload r); simpl; auto.
  - destruct (status r =? 401); simpl; auto.
Qed.


(** C5, as the code has it.  With a persisted flag read as true (the one
    the persist middleware has just rewritten from the store) and a
    verification that ends in anything but a success or a 401 recovered by
    refresh and retry:
    - the hydrate that refreshes and retries clears the session (user
      null, isAuthenticated false, error null) and resets loading;
    - the hydrate without refresh clears the session only when /me answers
      401; on any other non-success status, on a fault, and on a success
      whose body cannot be read, it records an error message and leaves
      user and isAuthenticated as they were. *)
Theorem hydrate_after_failed_verification (w : World) :
  read_back JSON_parse (auth w) = Flag true ->
  verified_profile API_BASE_URL net w = None ->
  auth (snd (hydrate w)) = cleared /\
  auth (snd (hydrate_basic w)) =
    match net (requests w) me with
    | Fault e => kept_with_error (auth w) (message e)
    | Resp r =>
        if ok r then
          match payload r with
          | Throw e => kept_with_error (auth w) (message e)
          | Ok u => {| user := u; isAuthenticated := true; loading := false;
                       error := JNull |}
          end
        else if status r =? 401 then cleared
        else kept_with_error (auth w) "Failed to hydrate auth state"
    end.
Proof.
  intros Hflag Hfail.
  destruct (hydrate_verifies w Hflag) as (_ & A2 & _).
  destruct (basic_hydrate_verifies w Hflag) as (_ & _ & A1).
  rewrite A2, A1, Hfail. split; [reflexivity|].
  destruct (net (requests w) me) as [r|e]; [|reflexivity].
  destruct (ok r); [|reflexivity]. now destruct (payload r).
Qed.

(** X6.  The refresh-aware hydrate leaves the session signed in only
    after a verification that succeeded: the flag it read back was true
    and /me answered with a readable success, at once or after a 401 and
    an accepted refresh.  The user is then the profile /me returned.  In
    every other case, a text that does not parse included, the session is
    the cleared one.  Loading is false either way. *)
Theorem hydrate_outcome (w : World) :
  auth (snd (hydrate w)) =
    match read_back JSON_parse (auth w), verified_profile API_BASE_URL net w with
    | Flag true, Some u => signed_in_as u
    | _, _ => cleared
    end.
Proof.
  destruct (read_back JSON_parse (auth w)) as [| |[|]] eqn:Hp.
  - exfalso. unfold read_back in Hp.
    destruct (JSON_parse (persist_text (auth w))); discriminate.
  - destruct (hydrate_unreadable w Hp) as (e & _ & (_ & _ & A2) & _). exact A2.
  - destruct (hydrate_verifies w Hp) as (_ & A2 & _). exact A2.
  - destruct (hydrate_skips w Hp) as ((_ & _ & A2) & _). exact A2.
Qed.

(** X7.  Both hydrate definitions always return: no answer of the
    transport, no content of storage and no parser error makes them
    reject, and loading is false when they are done. *)
Theorem hydrate_always_returns (w : World) :
  (fst (hydrate w) = Ok tt /\
   loading (auth (snd (hydrate w))) = false) /\
  (fst (hydrate_basic w) = Ok tt /\
   loading (auth (snd (hydrate_basic w))) = false).
Proof.
  destruct (read_back JSON_parse (auth w)) as [| |[|]] eqn:Hp.
  - exfalso. unfold read_back in Hp.
    destruct (JSON_parse (persist_text (auth w))); discriminate.
  - destruct (hydrate_unreadable w Hp)
      as (e & _ & (-> & _ & ->) & (-> & _ & ->)). auto.
  - destruct (hydrate_verifies w Hp) as (-> & -> & _).
    destruct (basic_hydrate_verifies w Hp) as (-> & _ & ->).
    split; split; auto.
    + now destruct (verified_profile API_BASE_URL net w).
    + destruct (net (requests w) me) as [r|e]; auto.
      destruct (ok r); [now destruct (payload r)|].
      now destruct (status r =? 401).
  - destruct (hydrate_skips w Hp) as ((-> & _ & ->) & (-> & _ & ->)). auto.
Qed.

(** X8.  The requests of a hydration.  Unless the flag read back is true
    there are none.  With a true flag the hydrate without refresh issues
    the one /me request and never addresses the refresh endpoint; the
    refresh-aware hydrate issues /me, then at most one refresh request,
    then at most one more /me. *)
Theorem hydrate_requests (w : World) :
  issued hydrate_basic w =
    match read_back JSON_parse (auth w) with
    | Flag true => [me]
    | _ => []
    end /\
  exists tail,
    issued hydrate w =
      match read_back JSON_parse (auth w) with
      | Flag true => me :: tail
      | _ => []
      end /\
    (tail = [] \/ tail = [refresh] \/ tail = [refresh; me]).
Proof.
  destruct (read_back JSON_parse (auth w)) as [| |[|]] eqn:Hp.
  - exfalso. unfold read_back in Hp.
    destruct (JSON_parse (persist_text (auth w))); discriminate.
  - destruct (hydrate_unreadable w Hp) as (e & _ & (_ & H2 & _) & (_ & H1 & _)).
    unfold issued. rewrite H1, H2, drop_all. eauto.
  - destruct (hydrate_verifies w Hp) as (_ & _ & _ & tail & H2 & Htail).
    destruct (basic_hydrate_verifies w Hp) as (_ & H1 & _).
    rewrite (issued_app _ _ _ H1), (issued_app _ _ _ H2). eauto.
  - destruct (hydrate_skips w Hp) as ((_ & H2 & _) & (_ & H1 & _)).
    unfold issued. rewrite H1, H2, drop_all. eauto.
Qed.

Lemma finally_set_in_step {A} (m : M A) (p : AuthPatch) (v : World) :
  entry_in_step (snd (finally m (authSet p) v)).
Proof.
  unfold finally, authSet, entry_in_step.
  destruct (m v) as [res v']. simpl. apply lookup_setItem.
Qed.

(** X9.  The entry "auth-store" as it stands when hydrate is called is
    never read.  Whatever it holds (nothing, text that does not parse, a
    flag that differs from the store's), either hydrate returns the same
    result, sends the same requests and leaves the same session as over any
    other storage, and when it is done the entry is the persisted copy of
    that session. *)
Theorem hydrate_ignores_stored_text (w : World) (s : gmap string string) :
  (same_outcome (hydrate (with_storage s w)) (hydrate w) /\
   entry_in_step (snd (hydrate (with_storage s w)))) /\
  (same_outcome (hydrate_basic (with_storage s w)) (hydrate_basic w) /\
   entry_in_step (snd (hydrate_basic (with_storage s w)))).
Proof.
  split; split;
    try (unfold AuthStore.hydrate, AuthStoreBasic.hydrate; unfold bind at 1;
         unfold authSet at 1; cbv beta iota; apply finally_set_in_step).
  - unfold same_outcome. open_hydrate.
    unfold fetch, me_request, refresh_request, json.
    rewrite (read_persisted_started w), (read_persisted_started (with_storage s w)).
    cbn [auth with_storage].
    destruct (JSON_parse (persist_text (auth w))) as [parsed|e]; [|simpl; auto].
    destruct (truthy (opt_member (opt_member parsed "state") "isAuthenticated"));
      [|simpl; auto].
    simpl.
    destruct (net (requests w) _) as [r|e]; simpl; [|auto].
    destruct (status r =? 401); simpl.
    + destruct (net (requests w ++ _) _) as [rr|e]; simpl; [|auto].
      destruct (ok rr); simpl; [|auto].
      destruct (net ((requests w ++ _) ++ _) _) as [r2|e]; simpl; [|auto].
      destruct (ok r2); simpl; [|auto].
      destruct (payload r2); simpl; auto.
    + destruct (ok r); simpl; [|auto].
      destruct (payload r); simpl; auto.
  - unfold same_outcome. open_hydrate. unfold fetch, me_request, json.
    rewrite (read_persisted_started w), (read_persisted_started (with_storage s w)).
    cbn [auth with_storage].
    destruct (JSON_parse (persist_text (auth w))) as [parsed|e]; [|simpl; auto].
    destruct (truthy (opt_member (opt_member parsed "state") "isAuthenticated"));
      [|simpl; auto].
    simpl.
    destruct (net (requests w) _) as [r|e]; simpl; [|auto].
    destruct (ok r); simpl.
    + destruct (payload r); simpl; auto.
    + destruct (status r =? 401); simpl; auto.
Qed.

(** X10.  The hydrate without refresh, with a flag read back as true,
    issues one /me request and never a refresh: a readable success signs
    the user in with the returned profile, a 401 clears the session at
    once, and every other outcome keeps user and isAuthenticated and
    records an error. *)
Theorem basic_hydrate_outcome (w : World) :
  read_back JSON_parse (auth w) = Flag true ->
  issued hydrate_basic w = [me] /\
  auth (snd (hydrate_basic w)) =
    match net (requests w) me with
    | Fault e => kept_with_error (auth w) (message e)
    | Resp r =>
        if ok r then
          match payload r with
          | Ok u => signed_in_as u
          | Throw e => kept_with_error (auth w) (message e)
          end
        else if status r =? 401 then cleared
        else kept_with_error (auth w) "Failed to hydrate auth state"
    end.
Proof.
  intros Hp. destruct (basic_hydrate_verifies w Hp) as (_ & H1 & A1).
  now rewrite (issued_app _ _ _ H1).
Qed.

Lemma me_request_is_fetchGet :
  original (me_url API_BASE_URL) (with_method "GET" no_options) = me.
Proof.
  unfold original, me_request, me_init, plain_init, fetchOptions, with_method,
    no_options, spread_headers. simpl.
  now rewrite (left_id_L ∅ (∪) json_headers).
Qed.

(** X24.  Hydration verifies the way the executor would.  With a flag
    read back as true, the refresh-aware hydrate issues exactly the
    requests that [fetchGet] on the /me URL issues over the same
    transport, in the same order: /me, the refresh after a 401, /me again
    after an accepted refresh.  Unlike the executor it never assigns a
    location: a hydration that ends signed out does not navigate. *)
Theorem hydrate_follows_executor (w : World) :
  read_back JSON_parse (auth w) = Flag true ->
  isAuthEndpoint (me_url API_BASE_URL) = false ->
  issued hydrate w
    = issued (fetchGet API_BASE_URL net (me_url API_BASE_URL) no_options) w /\
  navigation (snd (hydrate w)) = navigation w.
Proof.
  intros Hflag Hurl.
  assert (H : requests (snd (hydrate w))
              = requests (snd (fetchGet API_BASE_URL net (me_url API_BASE_URL)
                                 no_options w)) /\
              navigation (snd (hydrate w)) = navigation w).
  { unfold fetchGet, fetchWithAuth.
    unfold on_refresh_fault, AuthStore.clearAuth, redirect, console_error.
    change (fetch net (me_url API_BASE_URL) (fetchOptions (with_method "GET" no_options)))
      with (fetch net (req_url (original (me_url API_BASE_URL) (with_method "GET" no_options)))
                      (req_init (original (me_url API_BASE_URL) (with_method "GET" no_options)))).
    rewrite me_request_is_fetchGet, Hurl.
    unfold AuthStore.hydrate, AuthStore.refresh_and_retry, bind,
      finally, try_catch, authSet, fetch, me_request, refresh_request, json, throw, ret.
    rewrite (read_persisted_goes_on w Hflag).
    simpl.
    destruct (net (requests w) _) as [r|e]; simpl; [|auto].
    destruct (status r =? 401) eqn:E401; simpl.
    - destruct (net (requests w ++ _) _) as [rr|e]; simpl.
      2: { now destruct (has_window w). }
      destruct (ok rr); simpl.
      2: { now destruct (has_window w). }
      destruct (net ((requests w ++ _) ++ _) _) as [r2|e]; simpl.
      2: { now destruct (has_window w). }
      destruct (ok r2); simpl; [|auto].
      now destruct (payload r2).
    - destruct (ok r); simpl; [|auto].
      now destruct (payload r). }
  destruct H as [Hreq Hnav]. unfold issued. now rewrite Hreq.
Qed.

End Hydration.



(** C5 on a run: the flag read back is true and /me answers 500. *)
Lemma hydrate_after_failed_verification_witness :
  read_back parse_stored (auth returning_tab) = Flag true /\
  verified_profile base server_error returning_tab = None /\
  auth (snd (AuthStore.hydrate base server_error parse_stored returning_tab))
    = cleared.
Proof.
  split; [reflexivity|]. split; [reflexivity|].
  destruct (hydrate_after_failed_verification base server_error parse_stored
              returning_tab eq_refl eq_refl)
    as (Hauth & _).
  exact Hauth.
Defined.

(** C5 as stated fails for the hydrate without refresh: with a persisted
    flag that is true, in the store and in storage alike, and a 500 from
    /me, the session stays signed in. *)
Lemma basic_hydrate_keeps_session :
  persisted parse_stored returning_tab = Flag true /\
  read_back parse_stored (auth returning_tab) = Flag true /\
  verified_profile base server_error returning_tab = None /\
  auth (snd (AuthStoreBasic.hydrate base server_error parse_stored returning_tab))
    = {| user := alice; isAuthenticated := true; loading := false;
         error := JStr "Failed to hydrate auth state" |}.
Proof. repeat split; reflexivity. Qed.

(** X6 on a run: /me answers 401, the refresh is accepted, /me then
    returns the profile. *)
Example hydrate_recovers :
  auth (snd (AuthStore.hydrate base recovered parse_stored returning_tab))
    = signed_in_as alice.
Proof. reflexivity. Qed.

(** A store that is signed out sends nothing, although the entry it finds
    says signed in and /me would answer. *)
Example lagging_tab_sends_nothing :
  persisted parse_stored lagging_tab = Flag true /\
  issued (AuthStore.hydrate base (always 200) parse_stored) lagging_tab = [] /\
  issued (AuthStoreBasic.hydrate base (always 200) parse_stored) lagging_tab = [] /\
  auth (snd (AuthStoreBasic.hydrate base (always 200) parse_stored lagging_tab))
    = cleared.
Proof. repeat split; reflexivity. Qed.

(** X9 on a run: an entry that is not JSON is overwritten before it is
    read, and hydration goes on from the store. *)
Example corrupt_entry_is_overwritten :
  persisted parse_stored corrupt_tab = Unreadable /\
  issued (AuthStoreBasic.hydrate base server_error parse_stored) corrupt_tab
    = [me_request base] /\
  localStorage (snd (AuthStore.hydrate base server_error parse_stored corrupt_tab))
    !! "auth-store" = Some (persist_text cleared).
Proof. repeat split; reflexivity. Qed.

(** X10 on a run: /me answers 401 and the session is cleared with no
    refresh, although a refresh would have been accepted. *)
Lemma basic_hydrate_outcome_witness :
  issued (AuthStoreBasic.hydrate base recovered parse_stored) returning_tab
    = [me_request base] /\
  auth (snd (AuthStoreBasic.hydrate base recovered parse_stored returning_tab))
    = cleared.
Proof.
  destruct (basic_hydrate_outcome base recovered parse_stored returning_tab eq_refl)
    as (Hlog & Hauth).
  split; [exact Hlog | exact Hauth].
Defined.

(** X24 on a run: /me answers 401, the refresh is accepted, /me succeeds. *)
Lemma hydrate_follows_executor_witness :
  issued (AuthStore.hydrate base recovered parse_stored) returning_tab
    = [me_request base; refresh_request base; me_request base] /\
  issued (fetchGet base recovered (me_url base) no_options) returning_tab
    = [me_request base; refresh_request base; me_request base].
Proof.
  destruct (hydrate_follows_executor base recovered parse_stored returning_tab
              eq_refl eq_refl) as (Hlog & _).
  split; [reflexivity | rewrite <- Hlog; reflexivity].
Defined.

(** The text the persist middleware writes for a signed-out session. *)
Example persisted_signed_out :
  persist_text signed_out
  = "{" +:+ quoted "state" +:+ ":{" +:+ quoted "user" +:+ ":null,"
        +:+ quoted "isAuthenticated" +:+ ":false},"
        +:+ quoted "version" +:+ ":0}".
Proof. reflexivity. Qed.

(** ** Product store *)

Section ProductStoreContract.

Variable API_BASE_URL : string.
Variable net : Transport.
Variable JSON_stringify : JSVal -> option string.

Local Abbreviation request_of a := (action_request API_BASE_URL JSON_stringify a).
Local Abbreviation act a := (dispatch API_BASE_URL net JSON_stringify a).

Lemma unauthorized_not_ok (r : Response) : status r = 401 -> ok r = false.
Proof. unfold ok. intros ->. reflexivity. Qed.

(** No action of the product store addresses the refresh endpoint. *)
Lemma action_not_refresh (a : Action) :
  req_url (request_of a) <> refresh_url API_BASE_URL.
Proof.
  destruct a; simpl;
    unfold ProductStore.products_url, ProductStore.product_url, refresh_url;
    intros H; apply append_inv_head in H; simpl in H; discriminate.
Qed.

(** C10.  Each of fetchProducts, createProduct, updateProduct and
    deleteProduct hands one request to the plain [fetch].  When it is
    answered with a 401, the action has issued that one request and
    nothing else (no request to the refresh endpoint, no second attempt),
    the store error is "Unauthorized", loading is reset, and the action
    returns undefined; fetchProducts also resets the list of products to
    the empty list, the other three leave it as it was.  The session is
    not touched. *)
Theorem product_actions_do_not_refresh
    (a : Action) (w : World) (r : Response) :
  net (requests w) (request_of a) = Resp r ->
  status r = 401 ->
  fst (act a w) = Ok JUndefined /\
  issued (act a) w = [request_of a] /\
  requests_to (refresh_url API_BASE_URL) (issued (act a) w) = 0%nat /\
  p_error (productStore (snd (act a w))) = JStr "Unauthorized" /\
  p_loading (productStore (snd (act a w))) = false /\
  products (productStore (snd (act a w))) =
    match a with
    | FetchProducts => JArr []
    | _ => products (productStore w)
    end /\
  auth (snd (act a w)) = auth w /\
  navigation (snd (act a w)) = navigation w.
Proof.
  intros Hnet H401.
  pose proof (unauthorized_not_ok r H401) as Hok.
  pose proof (action_not_refresh a) as Hne.
  assert (E401 : (status r =? 401) = true) by (now apply Z.eqb_eq).
  assert (Hrun : act a w =
    (Ok JUndefined,
     with_products
       {| products := match a with
                      | FetchProducts => JArr []
                      | _ => products (productStore w)
                      end;
          p_loading := false;
          p_error := JStr "Unauthorized" |}
       (log_request (request_of a) w))).
  { destruct a; simpl in Hnet |- *;
      unfold ProductStore.fetchProducts, ProductStore.createProduct,
        ProductStore.updateProduct, ProductStore.deleteProduct,
        ProductStore.guarded, bind, finally, try_catch, productSet, fetch;
      simpl; rewrite Hnet; simpl; rewrite Hok, E401; reflexivity. }
  assert (Hi : issued (act a) w = [request_of a]).
  { apply issued_app. now rewrite Hrun. }
  rewrite Hi, Hrun. simpl.
  repeat split; auto.
  unfold requests_to. rewrite filter_cons. now case_decide.
Qed.

End ProductStoreContract.

(** ** Concrete runs *)

(** C1 on a run: 401, refresh accepted, then a 500 that is returned. *)
Lemma refresh_then_one_retry_witness :
  isAuthEndpoint orders_url = false /\
  fst (fetchWithAuth base expired_then_refreshed orders_url no_options browser)
    = Ok (answer 500) /\
  issued (fetchWithAuth base expired_then_refreshed orders_url no_options) browser
    = [original orders_url no_options; refresh_request base;
       original orders_url no_options].
Proof.
  split; [reflexivity|].
  destruct (refresh_then_one_retry base expired_then_refreshed orders_url
              no_options browser
              (answer 401) (answer 200)
              (answer 500)
              eq_refl eq_refl eq_refl eq_refl eq_refl eq_refl)
    as (Hres & Hlog & _).
  split; [exact Hres | exact Hlog].
Defined.

(** C2 on two runs: the refresh answers 401; the refresh faults. *)
Lemma refresh_failure_ends_session_witness :
  (fst (fetchWithAuth base expired_for_good orders_url no_options browser)
     = Ok (answer 401) /\
   auth (snd (fetchWithAuth base expired_for_good orders_url no_options browser))
     = cleared) /\
  (fst (fetchWithAuth base refresh_offline orders_url no_options browser)
     = Throw (mkError "Failed to fetch") /\
   auth (snd (fetchWithAuth base refresh_offline orders_url no_options browser))
     = cleared).
Proof.
  split.
  - destruct (refresh_failure_ends_session base expired_for_good orders_url
                no_options browser (answer 401) (reply 401)
                eq_refl eq_refl eq_refl eq_refl eq_refl)
      as (Hres & _ & _ & _ & Hauth & _).
    split; [exact Hres | exact Hauth].
  - destruct (refresh_failure_ends_session base refresh_offline orders_url
                no_options browser (answer 401) offline
                eq_refl eq_refl eq_refl eq_refl I)
      as (Hres & _ & _ & _ & Hauth & _).
    split; [exact Hres | exact Hauth].
Defined.

(** C3 on a run: a 401 from the login endpoint is returned as it is. *)
Lemma first_response_returned_witness :
  includes "/auth/login/" login_url = true /\
  fetchWithAuth base expired_for_good login_url no_options browser
    = (Ok (answer 401),
       log_request (original login_url no_options) browser).
Proof.
  split; [reflexivity|].
  destruct (first_response_returned base expired_for_good login_url no_options
              browser (answer 401) eq_refl
              (or_intror (or_introl eq_refl)))
    as (Hrun & _).
  exact Hrun.
Defined.


(** The caller's credentials field does not survive. *)
Example credentials_overridden :
  credentials custom_options = Some "omit" /\
  map (fun r => credentials (req_init r))
      (issued (fetchWithAuth base expired_then_refreshed orders_url custom_options)
              browser)
    = [Some "include"; Some "include"; Some "include"].
Proof. split; reflexivity. Qed.

(** C9 on a run: 401, refresh accepted, then the network is gone. *)
Lemma retry_fault_ends_session_witness :
  fst (fetchWithAuth base retry_offline orders_url no_options browser)
    = Throw (mkError "Failed to fetch") /\
  auth (snd (fetchWithAuth base retry_offline orders_url no_options browser))
    = cleared /\
  navigation (snd (fetchWithAuth base retry_offline orders_url no_options browser))
    = ["/login"].
Proof.
  destruct (retry_fault_ends_session base retry_offline orders_url no_options
              browser (answer 401) (answer 200)
              (mkError "Failed to fetch")
              eq_refl eq_refl eq_refl eq_refl eq_refl eq_refl)
    as (_ & Hres & _ & Hauth & Hnav).
  exact (conj Hres (conj Hauth Hnav)).
Defined.

(** C10 on a run: deleting product 12 is answered with a 401. *)
Lemma product_actions_do_not_refresh_witness :
  p_error (productStore (snd (dispatch base unauthorized stringify_empty
                                (DeleteProduct (JNum 12)) browser)))
    = JStr "Unauthorized" /\
  map req_url (issued (dispatch base unauthorized stringify_empty
                         (DeleteProduct (JNum 12))) browser)
    = ["http://localhost:8000/api/products/12/"].
Proof.
  destruct (product_actions_do_not_refresh base unauthorized stringify_empty
              (DeleteProduct (JNum 12)) browser (answer 401)
              eq_refl eq_refl)
    as (_ & Hlog & _ & Herr & _).
  split; [exact Herr | now rewrite Hlog].
Defined.

(** ** More on fetchWithAuth *)

Lemma append_cons (c : Ascii.ascii) (a b : string) :
  String c a +:+ b = String c (a +:+ b).
Proof. reflexivity. Qed.

Lemma append_empty_r (s : string) : s +:+ "" = s.
Proof. induction s as [|c s IH]; [reflexivity|]. now rewrite append_cons, IH. Qed.

Lemma prefix_spec (t s : string) :
  String.prefix t s = true <-> exists rest, s = t +:+ rest.
Proof.
  revert s. induction t as [|c t IH]; intros s.
  - split; [intros _; exists s; reflexivity | intros _; now destruct s].
  - destruct s as [|d s].
    + split; [discriminate | intros [rest H]; discriminate].
    + cbn [String.prefix]. destruct (Ascii.ascii_dec c d) as [->|Hne].
      * rewrite IH. split; intros [rest H]; exists rest.
        -- now rewrite append_cons, <- H.
        -- rewrite append_cons in H. congruence.
      * split; [discriminate |].
        intros [rest H]. rewrite append_cons in H. congruence.
Qed.

(** [includes] finds exactly the strings that contain [t] somewhere. *)
Lemma includes_spec (t s : string) :
  includes t s = true <-> exists front rest, s = front +:+ t +:+ rest.
Proof.
  induction s as [|c s IH].
  - change (includes t "") with (String.prefix t "" || false).
    rewrite orb_false_r, prefix_spec. split.
    + intros [rest H]. exists "", rest. exact H.
    + intros [front [rest H]]. destruct front; [eauto | discriminate].
  - change (includes t (String c s))
      with (String.prefix t (String c s) || includes t s).
    rewrite orb_true_iff, prefix_spec, IH. split.
    + intros [[rest H] | [front [rest H]]].
      * exists "", rest. exact H.
      * exists (String c front), rest. now rewrite append_cons, <- H.
    + intros [front [rest H]]. destruct front as [|d front].
      * left. exists rest. exact H.
      * right. rewrite append_cons in H. injection H as -> ->. eauto.
Qed.

(** X1.  [isAuthEndpoint] holds exactly for the URLs that contain
    "/auth/login/", "/auth/refresh/" or "/auth/logout/" somewhere, in the
    path or after it: the test is a substring test, not a comparison of
    paths. *)
Theorem isAuthEndpoint_spec (url : string) :
  isAuthEndpoint url = true <->
  exists fragment front rest,
    fragment ∈ auth_fragments /\ url = front +:+ fragment +:+ rest.
Proof.
  unfold isAuthEndpoint, auth_fragments.
  rewrite !orb_true_iff, !includes_spec. split.
  - intros [[(front & rest & H) | (front & rest & H)] | (front & rest & H)];
      [exists "/auth/login/" | exists "/auth/refresh/" | exists "/auth/logout/"];
      exists front, rest; split; auto; set_solver.
  - intros (fragment & front & rest & Hin & H).
    rewrite !elem_of_cons, elem_of_nil in Hin.
    destruct Hin as [-> | [-> | [-> | []]]]; eauto.
Qed.

(** A 401 for a resource whose query string mentions the login path is
    returned without refresh. *)
Example query_string_exempts_from_refresh :
  fetchWithAuth base expired_then_refreshed orders_after_login_url no_options browser
  = (Ok (answer 401), log_request (original orders_after_login_url no_options) browser).
Proof. reflexivity. Qed.

Section FetchWithAuthMore.

Variable API_BASE_URL : string.
Variable net : Transport.

Local Abbreviation run url options w := (fetchWithAuth API_BASE_URL net url options w).
Local Abbreviation refresh := (refresh_request API_BASE_URL).

(** X2.  A fault of the first request is thrown to the caller as it is:
    the first [fetch] is outside the try block, so nothing is refreshed,
    the session stays, nothing is logged to the console and no navigation
    happens. *)
Theorem first_fault_propagates
    (url : string) (options : RequestInit) (w : World) (e : Error) :
  net (requests w) (original url options) = Fault e ->
  run url options w = (Throw e, log_request (original url options) w) /\
  issued (fetchWithAuth API_BASE_URL net url options) w = [original url options] /\
  auth (snd (run url options w)) = auth w /\
  navigation (snd (run url options w)) = navigation w /\
  console (snd (run url options w)) = console w.
Proof.
  intros H.
  pose proof (first_fault API_BASE_URL net url options w e H) as Hrun.
  assert (Hi : issued (fetchWithAuth API_BASE_URL net url options) w
               = [original url options])
    by (apply issued_app; now rewrite Hrun).
  rewrite Hi, Hrun. auto.
Qed.

(** X3.  What a call returns or throws is what the transport answered to
    the last request the call issued: the first response, the refused
    refresh response, the response to the retry, or the fault of the
    request that failed.  No response is made up and none is swallowed. *)
Theorem result_is_last_answer
    (url : string) (options : RequestInit) (w : World) :
  exists before last,
    requests (snd (run url options w)) = before ++ [last] /\
    net before last =
      match fst (run url options w) with
      | Ok r => Resp r
      | Throw e => Fault e
      end.
Proof.
  destruct (net (requests w) (original url options)) as [r1|e] eqn:H1.
  - destruct (negb (status r1 =? 401) || isAuthEndpoint url) eqn:Hgo.
    + rewrite (passthrough API_BASE_URL net url options w r1 H1 Hgo).
      exists (requests w), (original url options). auto.
    + destruct (net (requests (log_request (original url options) w)) refresh)
        as [rr|e] eqn:Hr.
      * destruct (ok rr) eqn:Hok.
        -- destruct (net (requests (log_request refresh
                            (log_request (original url options) w)))
                         (original url options)) as [r2|e] eqn:H2.
           ++ rewrite (retried API_BASE_URL net url options w r1 rr r2 H1 Hgo Hr Hok H2).
              eexists _, _. split; [reflexivity | exact H2].
           ++ rewrite (retry_faulted API_BASE_URL net url options w r1 rr e
                         H1 Hgo Hr Hok H2), on_refresh_fault_run.
              simpl. rewrite abandon_requests. simpl.
              eexists _, _. split; [reflexivity | exact H2].
        -- rewrite (refresh_refused API_BASE_URL net url options w r1 rr H1 Hgo Hr Hok).
           simpl. rewrite abandon_requests. simpl.
           eexists _, _. split; [reflexivity | exact Hr].
      * rewrite (refresh_faulted API_BASE_URL net url options w r1 e H1 Hgo Hr),
          on_refresh_fault_run.
        simpl. rewrite abandon_requests. simpl.
        eexists _, _. split; [reflexivity | exact Hr].
  - rewrite (first_fault API_BASE_URL net url options w e H1).
    exists (requests w), (original url options). auto.
Qed.

End FetchWithAuthMore.

Section Callers.

Variable API_BASE_URL : string.
Variable net : Transport.
Variable JSON_stringify : JSVal -> option string.

Local Abbreviation refresh := (refresh_request API_BASE_URL).

Lemma issued_shape (url : string) (options : RequestInit) (w : World) :
  exists tail,
    issued (fetchWithAuth API_BASE_URL net url options) w
      = original url options :: tail /\
    (tail = [] \/ tail = [refresh] \/ tail = [refresh; original url options]).
Proof.
  destruct (log_shape API_BASE_URL net url options w) as [H | [_ [H | H]]];
    rewrite (issued_app _ _ _ H); eauto.
Qed.

(** X4.  The convenience wrappers fix the method, whatever the caller's
    options say: the first request of fetchGet, fetchPost, fetchPut and
    fetchDelete carries GET, POST, PUT and DELETE.  fetchPost and fetchPut
    also replace the caller's body by [JSON.stringify(data)], while
    fetchGet and fetchDelete pass the caller's body on.  Every request
    after the first is the refresh request or the first one again. *)
Theorem wrappers_fix_method
    (url : string) (data : JSVal) (options : RequestInit) (w : World) :
  let sent m b :=
    mkRequest url {| method := Some m; credentials := Some "include";
                     headers := Some (spread_headers options ∪ json_headers);
                     body := b; other := other options |} in
  let follows first tail :=
    tail = [] \/ tail = [refresh] \/ tail = [refresh; first] in
  (exists tail, issued (fetchGet API_BASE_URL net url options) w
                  = sent "GET" (body options) :: tail /\
                follows (sent "GET" (body options)) tail) /\
  (exists tail, issued (fetchPost API_BASE_URL net JSON_stringify url data options) w
                  = sent "POST" (JSON_stringify data) :: tail /\
                follows (sent "POST" (JSON_stringify data)) tail) /\
  (exists tail, issued (fetchPut API_BASE_URL net JSON_stringify url data options) w
                  = sent "PUT" (JSON_stringify data) :: tail /\
                follows (sent "PUT" (JSON_stringify data)) tail) /\
  (exists tail, issued (fetchDelete API_BASE_URL net url options) w
                  = sent "DELETE" (body options) :: tail /\
                follows (sent "DELETE" (body options)) tail).
Proof.
  intros sent follows. unfold fetchGet, fetchPost, fetchPut, fetchDelete.
  repeat split.
  - apply (issued_shape url (with_method "GET" options) w).
  - apply (issued_shape url (with_method_and_body JSON_stringify "POST" data options) w).
  - apply (issued_shape url (with_method_and_body JSON_stringify "PUT" data options) w).
  - apply (issued_shape url (with_method "DELETE" options) w).
Qed.

Lemma fetch_all_valid (calls : list (string * RequestInit)) (w : World) :
  (forall history request,
     exists r, net history request = Resp r /\ status r <> 401) ->
  exists rs w',
    fetch_all API_BASE_URL net calls w = (Ok rs, w') /\
    length rs = length calls /\
    requests w' = requests w ++ map (fun c => original (fst c) (snd c)) calls /\
    auth w' = auth w /\
    navigation w' = navigation w.
Proof.
  intros Hnet. revert w.
  induction calls as [|[url options] calls IH]; intros w.
  - exists [], w. simpl. rewrite app_nil_r. auto.
  - destruct (Hnet (requests w) (original url options)) as (r & Hr & Hne).
    assert (Hs : negb (status r =? 401) || isAuthEndpoint url = true).
    { apply Z.eqb_neq in Hne. now rewrite Hne. }
    destruct (IH (log_request (original url options) w))
      as (rs & w' & Hrest & Hlen & Hreq & Hauth & Hnav).
    exists (r :: rs), w'.
    cbn [fetch_all]. unfold bind at 1.
    rewrite (passthrough API_BASE_URL net url options w r Hr Hs).
    unfold bind at 1. rewrite Hrest. unfold ret.
    simpl in *. rewrite Hlen, Hreq, <- app_assoc. auto.
Qed.

(** X5.  Calls made one after the other over a transport that never
    answers 401 and never faults (a session that stays valid) each issue
    their one request and nothing else: no refresh at any point, as many
    responses as calls, and the session and the navigation log as before. *)
Theorem valid_session_never_refreshes
    (calls : list (string * RequestInit)) (w : World) :
  (forall history request,
     exists r, net history request = Resp r /\ status r <> 401) ->
  (exists rs, fst (fetch_all API_BASE_URL net calls w) = Ok rs /\
              length rs = length calls) /\
  issued (fetch_all API_BASE_URL net calls) w
    = map (fun c => original (fst c) (snd c)) calls /\
  auth (snd (fetch_all API_BASE_URL net calls w)) = auth w /\
  navigation (snd (fetch_all API_BASE_URL net calls w)) = navigation w.
Proof.
  intros Hnet.
  destruct (fetch_all_valid calls w Hnet) as (rs & w' & Hrun & Hlen & Hreq & Hauth & Hnav).
  unfold issued. rewrite Hrun. simpl. rewrite Hreq, drop_app_length.
  split; eauto.
Qed.

End Callers.

(** X5 on a run: two calls over a transport that always answers 200. *)
Lemma valid_session_never_refreshes_witness :
  issued (fetch_all base (always 200)
            [(orders_url, no_options); (orders_url, custom_options)]) browser
    = [original orders_url no_options; original orders_url custom_options] /\
  auth (snd (fetch_all base (always 200)
               [(orders_url, no_options); (orders_url, custom_options)] browser))
    = auth browser.
Proof.
  destruct (valid_session_never_refreshes base (always 200)
              [(orders_url, no_options); (orders_url, custom_options)] browser)
    as (_ & Hlog & Hauth & _).
  - intros history request. exists (answer 200). split; [reflexivity|].
    simpl. lia.
  - split; [exact Hlog | exact Hauth].
Defined.

(** X2 on a run: the network is gone before the first request. *)
Lemma first_fault_propagates_witness :
  fetchWithAuth base (scripted []) orders_url no_options browser
    = (Throw (mkError "Failed to fetch"),
       log_request (original orders_url no_options) browser).
Proof.
  destruct (first_fault_propagates base (scripted []) orders_url no_options
              browser (mkError "Failed to fetch") eq_refl) as (Hrun & _).
  exact Hrun.
Defined.

(** ** More on the product store *)

Section ProductStoreMore.

Variable API_BASE_URL : string.
Variable net : Transport.
Variable JSON_stringify : JSVal -> option string.

Local Abbreviation request_of a := (action_request API_BASE_URL JSON_stringify a).
Local Abbreviation act a := (dispatch API_BASE_URL net JSON_stringify a).

(** The callbacks of [map] and [filter] leave the world alone. *)
Lemma array_map_world (i u : JSVal) (xs : list JSVal) (v : World) :
  snd (ProductStore.array_map (ProductStore.replace_if i u) xs v) = v.
Proof.
  induction xs as [|x xs IH]; [reflexivity|].
  cbn [ProductStore.array_map]. unfold bind, ProductStore.replace_if, get, lift.
  destruct (member x "id"); simpl; [|reflexivity].
  destruct (ProductStore.array_map _ xs v) as [[ys|e] v'] eqn:E;
    simpl in *; now subst.
Qed.

Lemma array_filter_world (i : JSVal) (xs : list JSVal) (v : World) :
  snd (ProductStore.array_filter (ProductStore.keep_if i) xs v) = v.
Proof.
  induction xs as [|x xs IH]; [reflexivity|].
  cbn [ProductStore.array_filter]. unfold bind, ProductStore.keep_if, get, lift.
  destruct (member x "id"); simpl; [|reflexivity].
  destruct (ProductStore.array_filter _ xs v) as [[ys|e] v'] eqn:E;
    simpl in *; now subst.
Qed.

Lemma member_of_object (p : JSVal) (k : string) :
  nullish p = false -> member p k = Some (opt_member p k).
Proof. unfold opt_member. now destruct p. Qed.

Lemma replace_if_object (i u p : JSVal) (v : World) :
  nullish p = false ->
  ProductStore.replace_if i u p v = (Ok (if has_id i p then u else p), v).
Proof.
  intros Hp. unfold ProductStore.replace_if, get, lift, bind.
  now rewrite (member_of_object p "id" Hp).
Qed.

Lemma keep_if_object (i p : JSVal) (v : World) :
  nullish p = false ->
  ProductStore.keep_if i p v = (Ok (negb (has_id i p)), v).
Proof.
  intros Hp. unfold ProductStore.keep_if, get, lift, bind.
  now rewrite (member_of_object p "id" Hp).
Qed.

Lemma array_map_objects (i u : JSVal) (xs : list JSVal) (v : World) :
  Forall (fun p => nullish p = false) xs ->
  ProductStore.array_map (ProductStore.replace_if i u) xs v
  = (Ok (map (fun p => if has_id i p then u else p) xs), v).
Proof.
  induction 1 as [|x xs Hx Hxs IH]; [reflexivity|].
  cbn [ProductStore.array_map]. unfold bind.
  now rewrite (replace_if_object i u x v Hx), IH.
Qed.

Lemma array_filter_objects (i : JSVal) (xs : list JSVal) (v : World) :
  Forall (fun p => nullish p = false) xs ->
  ProductStore.array_filter (ProductStore.keep_if i) xs v
  = (Ok (List.filter (fun p => negb (has_id i p)) xs), v).
Proof.
  induction 1 as [|x xs Hx Hxs IH]; [reflexivity|].
  cbn [ProductStore.array_filter]. unfold bind.
  rewrite (keep_if_object i x v Hx), IH. unfold ret. simpl.
  now destruct (has_id i x).
Qed.

(** What [guarded] guarantees whatever its body does. *)
Lemma guarded_resolves (label : string) (body : M JSVal) (v : World) :
  (exists r, fst (ProductStore.guarded label body v) = Ok r) /\
  p_loading (productStore (snd (ProductStore.guarded label body v))) = false /\
  requests (snd (ProductStore.guarded label body v)) = requests (snd (body v)) /\
  auth (snd (ProductStore.guarded label body v)) = auth (snd (body v)) /\
  navigation (snd (ProductStore.guarded label body v)) = navigation (snd (body v)).
Proof.
  unfold ProductStore.guarded, finally, try_catch, bind, console_error,
    productSet, ret.
  destruct (body v) as [[r|e] v']; simpl; eauto 10.
Qed.

(** Case analysis through the body of a product action. *)
Ltac through_body :=
  repeat (simpl;
    match goal with
    | |- context [match net ?h ?q with _ => _ end] => destruct (net h q)
    | |- context [if ok ?r then _ else _] => destruct (ok r)
    | |- context [if ?s =? ?c then _ else _] => destruct (s =? c)
    | |- context [match payload ?r with _ => _ end] => destruct (payload r)
    | |- context [match member ?d ?k with _ => _ end] => destruct (member d k)
    | |- context [match spread ?p with _ => _ end] => destruct (spread p)
    | |- context [match as_array ?p with _ => _ end] => destruct (as_array p)
    | |- context [ProductStore.array_map (ProductStore.replace_if ?i ?u) ?xs ?v] =>
        let E := fresh in
        pose proof (array_map_world i u xs v) as E;
        destruct (ProductStore.array_map (ProductStore.replace_if i u) xs v)
          as [[?|?] ?];
        simpl in E; subst
    | |- context [ProductStore.array_filter (ProductStore.keep_if ?i) ?xs ?v] =>
        let E := fresh in
        pose proof (array_filter_world i xs v) as E;
        destruct (ProductStore.array_filter (ProductStore.keep_if i) xs v)
          as [[?|?] ?];
        simpl in E; subst
    end).

(** X11.  Every action of the product store resolves: whatever the
    transport answers (any status, an unreadable body, a fault) and
    whatever the list holds, the action returns instead of rejecting, has
    issued exactly its one request (no retry, no refresh), ends with
    loading false and leaves the session and the navigation log alone. *)
Theorem product_actions_always_resolve (a : Action) (w : World) :
  (exists r, fst (act a w) = Ok r) /\
  p_loading (productStore (snd (act a w))) = false /\
  issued (act a) w = [request_of a] /\
  auth (snd (act a w)) = auth w /\
  navigation (snd (act a w)) = navigation w.
Proof.
  assert (H : (exists r, fst (act a w) = Ok r) /\
              p_loading (productStore (snd (act a w))) = false /\
              requests (snd (act a w)) = requests w ++ [request_of a] /\
              auth (snd (act a w)) = auth w /\
              navigation (snd (act a w)) = navigation w).
  { destruct a; simpl;
      unfold ProductStore.fetchProducts, ProductStore.createProduct,
        ProductStore.updateProduct, ProductStore.deleteProduct;
      match goal with
      | |- context [bind (productSet ?p) ?k ?v] =>
          change (bind (productSet p) k v)
            with (k tt (with_products (merge_products p (productStore v)) v))
      end; cbv beta;
      match goal with
      | |- context [ProductStore.guarded ?l ?b ?v] =>
          destruct (guarded_resolves l b v) as (Hr & Hl & Hq & Ha & Hn)
      end;
      rewrite Hq, Ha, Hn; repeat split; auto;
      unfold ProductStore.report_detail, bind, fetch, json, get, lift, productGet,
        productSet, ret, throw;
      through_body; reflexivity. }
  destruct H as (Hr & Hl & Hq & Ha & Hn).
  rewrite (issued_app _ _ _ Hq). auto.
Qed.

Ltac open_action :=
  simpl;
  unfold ProductStore.fetchProducts, ProductStore.createProduct,
    ProductStore.updateProduct, ProductStore.deleteProduct,
    ProductStore.guarded, ProductStore.report_detail, bind, finally, try_catch,
    fetch, json, get, lift, productGet, productSet, console_error, ret, throw;
  simpl.

Lemma fetch_ok_run (w : World) (r : Response) :
  net (requests w) (request_of FetchProducts) = Resp r ->
  ok r = true ->
  act FetchProducts w =
    (Ok JUndefined,
     with_products
       match payload r with
       | Ok ps => at_rest ps JNull
       | Throw e => at_rest (products (productStore w)) (JStr (message e))
       end
       (with_console
          match payload r with
          | Ok _ => console w
          | Throw e => console w ++ ["Fetch products error: " +:+ message e]
          end
          (log_request (request_of FetchProducts) w))).
Proof.
  intros Hnet Hok. open_action. simpl in Hnet. rewrite Hnet. simpl.
  rewrite Hok. now destruct (payload r).
Qed.

Lemma create_ok_run (d : JSVal) (w : World) (r : Response) (p : JSVal)
    (xs : list JSVal) :
  net (requests w) (request_of (CreateProduct d)) = Resp r ->
  ok r = true -> payload r = Ok p ->
  spread (products (productStore w)) = Some xs ->
  act (CreateProduct d) w =
    (Ok p, with_products (at_rest (JArr (p :: xs)) JNull)
             (log_request (request_of (CreateProduct d)) w)).
Proof.
  intros Hnet Hok Hp Hxs. open_action. simpl in Hnet. rewrite Hnet. simpl.
  rewrite Hok, Hp. simpl. now rewrite Hxs.
Qed.

Lemma update_ok_run (i d : JSVal) (w : World) (r : Response) (u : JSVal)
    (xs : list JSVal) :
  net (requests w) (request_of (UpdateProduct i d)) = Resp r ->
  ok r = true -> payload r = Ok u ->
  products (productStore w) = JArr xs ->
  Forall (fun p => nullish p = false) xs ->
  act (UpdateProduct i d) w =
    (Ok u, with_products
             (at_rest (JArr (map (fun p => if has_id i p then u else p) xs)) JNull)
             (log_request (request_of (UpdateProduct i d)) w)).
Proof.
  intros Hnet Hok Hp Hxs Hobj. open_action. simpl in Hnet. rewrite Hnet. simpl.
  rewrite Hok, Hp. simpl. rewrite Hxs. simpl.
  now rewrite (array_map_objects i u xs _ Hobj).
Qed.

Lemma delete_ok_run (i : JSVal) (w : World) (r : Response) (xs : list JSVal) :
  net (requests w) (request_of (DeleteProduct i)) = Resp r ->
  ok r = true ->
  products (productStore w) = JArr xs ->
  Forall (fun p => nullish p = false) xs ->
  act (DeleteProduct i) w =
    (Ok (JBool true),
     with_products
       (at_rest (JArr (List.filter (fun p => negb (has_id i p)) xs)) JNull)
       (log_request (request_of (DeleteProduct i)) w)).
Proof.
  intros Hnet Hok Hxs Hobj. open_action. simpl in Hnet. rewrite Hnet. simpl.
  rewrite Hok. simpl. rewrite Hxs. simpl.
  now rewrite (array_filter_objects i xs _ Hobj).
Qed.

(** X12.  An answer that is not a success leaves the product list as it
    was: after a non-success status or a fault, createProduct,
    updateProduct and deleteProduct have changed only error and loading.
    The same holds for fetchProducts unless the status is 401. *)
Theorem refused_action_keeps_products (a : Action) (w : World) :
  match net (requests w) (request_of a) with
  | Resp r => ok r = false /\ (mutating a = false -> status r <> 401)
  | Fault _ => True
  end ->
  products (productStore (snd (act a w))) = products (productStore w).
Proof.
  intros H.
  destruct a; open_action; simpl in H;
    match goal with
    | |- context [match net ?h ?q with _ => _ end] =>
        destruct (net h q) as [r|e];
        [destruct H as [Hok H401]; rewrite Hok;
         destruct (status r =? 401) eqn:E401|]
    end; through_body; try reflexivity.
  exfalso. apply Z.eqb_eq in E401. now apply H401.
Qed.

(** X13.  fetchProducts after a success status stores the body as the
    list, whatever it is, and clears the error; when the body cannot be
    read the list stays and the error is the reader's message. *)
Theorem fetchProducts_loads (w : World) (r : Response) :
  net (requests w) (request_of FetchProducts) = Resp r ->
  ok r = true ->
  fst (act FetchProducts w) = Ok JUndefined /\
  productStore (snd (act FetchProducts w)) =
    match payload r with
    | Ok ps => at_rest ps JNull
    | Throw e => at_rest (products (productStore w)) (JStr (message e))
    end.
Proof.
  intros Hnet Hok. now rewrite (fetch_ok_run w r Hnet Hok).
Qed.

(** X14.  createProduct after a success status puts the returned product
    in front of the list and returns it.  When the stored list is not
    iterable (fetchProducts stores any body) the product has been created
    on the server but the store only records an error: the list stays and
    the action returns undefined. *)
Theorem createProduct_prepends
    (d : JSVal) (w : World) (r : Response) (p : JSVal) :
  net (requests w) (request_of (CreateProduct d)) = Resp r ->
  ok r = true -> payload r = Ok p ->
  match spread (products (productStore w)) with
  | Some xs =>
      fst (act (CreateProduct d) w) = Ok p /\
      productStore (snd (act (CreateProduct d) w)) = at_rest (JArr (p :: xs)) JNull
  | None =>
      fst (act (CreateProduct d) w) = Ok JUndefined /\
      products (productStore (snd (act (CreateProduct d) w)))
        = products (productStore w) /\
      exists msg, p_error (productStore (snd (act (CreateProduct d) w))) = JStr msg
  end.
Proof.
  intros Hnet Hok Hp.
  destruct (spread (products (productStore w))) as [xs|] eqn:Hxs.
  - now rewrite (create_ok_run d w r p xs Hnet Hok Hp Hxs).
  - open_action. simpl in Hnet. rewrite Hnet. simpl. rewrite Hok, Hp. simpl.
    rewrite Hxs. simpl. eauto.
Qed.

Lemma filter_drops (f : JSVal -> bool) (xs : list JSVal) :
  Forall (fun p => f p = false) (List.filter (fun p => negb (f p)) xs).
Proof.
  induction xs as [|x xs IH]; simpl; [constructor|].
  destruct (f x) eqn:E; simpl; auto.
Qed.

Lemma filter_keeps_all (f : JSVal -> bool) (xs : list JSVal) :
  Forall (fun p => f p = false) xs ->
  List.filter (fun p => negb (f p)) xs = xs.
Proof.
  induction 1 as [|x xs Hx _ IH]; simpl; [reflexivity|].
  now rewrite Hx, IH.
Qed.

(** X15.  deleteProduct by a primitive id (a number, a string, ...)
    after a success status, on a list of entries that are neither null nor
    undefined, keeps exactly the entries whose id is not strictly equal to
    the argument, in their order, and returns true.  No entry with that id
    is left; the response body is not read. *)
Theorem deleteProduct_removes
    (i : JSVal) (w : World) (r : Response) (xs : list JSVal) :
  primitive i = true ->
  net (requests w) (request_of (DeleteProduct i)) = Resp r ->
  ok r = true ->
  products (productStore w) = JArr xs ->
  Forall (fun p => nullish p = false) xs ->
  fst (act (DeleteProduct i) w) = Ok (JBool true) /\
  productStore (snd (act (DeleteProduct i) w))
    = at_rest (JArr (List.filter (fun p => negb (has_id i p)) xs)) JNull /\
  Forall (fun p => has_id i p = false)
         (List.filter (fun p => negb (has_id i p)) xs) /\
  (Forall (fun p => has_id i p = false) xs ->
   products (productStore (snd (act (DeleteProduct i) w))) = JArr xs).
Proof.
  intros _ Hnet Hok Hxs Hobj.
  rewrite (delete_ok_run i w r xs Hnet Hok Hxs Hobj). simpl.
  repeat split; auto using filter_drops.
  intros Hnone. now rewrite (filter_keeps_all (has_id i) xs Hnone).
Qed.

(** X16.  updateProduct by a primitive id after a readable success, on a
    list of entries that are neither null nor undefined, replaces every
    entry whose id is strictly equal to the argument by the returned
    product and leaves the others in place: the list keeps its length, and
    a product that is not in the list is not added. *)
Theorem updateProduct_replaces
    (i d : JSVal) (w : World) (r : Response) (u : JSVal) (xs : list JSVal) :
  primitive i = true ->
  net (requests w) (request_of (UpdateProduct i d)) = Resp r ->
  ok r = true -> payload r = Ok u ->
  products (productStore w) = JArr xs ->
  Forall (fun p => nullish p = false) xs ->
  fst (act (UpdateProduct i d) w) = Ok u /\
  productStore (snd (act (UpdateProduct i d) w))
    = at_rest (JArr (map (fun p => if has_id i p then u else p) xs)) JNull /\
  length (map (fun p => if has_id i p then u else p) xs) = length xs /\
  (Forall (fun p => has_id i p = false) xs ->
   products (productStore (snd (act (UpdateProduct i d) w))) = JArr xs).
Proof.
  intros _ Hnet Hok Hp Hxs Hobj.
  rewrite (update_ok_run i d w r u xs Hnet Hok Hp Hxs Hobj). simpl.
  repeat split; auto using length_map.
  intros Hnone. f_equal.
  clear -Hnone. induction Hnone as [|x xs Hx _ IH]; simpl; [reflexivity|].
  now rewrite Hx, IH.
Qed.

(** X17.  Creating a product and then deleting it by its id gives the
    list back: when the created product carries the id [i], no entry of
    the list carried it before and both requests succeed, the list after
    the two actions is the list before them, with no error. *)
Theorem create_then_delete
    (d i : JSVal) (w : World) (r1 r2 : Response) (p : JSVal) (xs : list JSVal) :
  products (productStore w) = JArr xs ->
  Forall (fun q => nullish q = false) xs ->
  Forall (fun q => has_id i q = false) xs ->
  net (requests w) (request_of (CreateProduct d)) = Resp r1 ->
  ok r1 = true -> payload r1 = Ok p ->
  nullish p = false -> has_id i p = true ->
  net (requests w ++ [request_of (CreateProduct d)]) (request_of (DeleteProduct i))
    = Resp r2 ->
  ok r2 = true ->
  productStore (snd (and_then (act (CreateProduct d)) (act (DeleteProduct i)) w))
    = at_rest (JArr xs) JNull.
Proof.
  intros Hxs Hobj Hnone Hnet1 Hok1 Hp Hpobj Hid Hnet2 Hok2.
  unfold and_then, bind.
  assert (Hs : spread (products (productStore w)) = Some xs) by now rewrite Hxs.
  rewrite (create_ok_run d w r1 p xs Hnet1 Hok1 Hp Hs).
  rewrite (delete_ok_run i
             (with_products (at_rest (JArr (p :: xs)) JNull)
                (log_request (request_of (CreateProduct d)) w))
             r2 (p :: xs) Hnet2 Hok2 eq_refl
             (List.Forall_cons _ _ _ Hpobj Hobj)).
  simpl. rewrite Hid. simpl.
  now rewrite (filter_keeps_all (has_id i) xs Hnone).
Qed.

(** X18.  A refusal that the code has no branch of its own for (not 401,
    and for update and delete not 403) with an object as its body: the
    error of createProduct, updateProduct and deleteProduct is the body's
    detail as it is when that is truthy, and the action's own fallback
    message otherwise.  The list is not touched. *)
Theorem server_detail_is_shown
    (a : Action) (w : World) (r : Response) (fields : list (string * JSVal)) :
  mutating a = true ->
  net (requests w) (request_of a) = Resp r ->
  ok r = false ->
  status r <> 401 ->
  (names_forbidden a = true -> status r <> 403) ->
  payload r = Ok (JObj fields) ->
  fst (act a w) = Ok JUndefined /\
  productStore (snd (act a w))
    = at_rest (products (productStore w))
              (js_or (assoc "detail" fields) (JStr (fallback_message a))).
Proof.
  intros Hmut Hnet Hok H401 H403 Hbody.
  apply Z.eqb_neq in H401.
  destruct a; try discriminate; open_action; simpl in Hnet; rewrite Hnet; simpl;
    rewrite Hok, H401; simpl;
    try (assert (E403 : (status r =? 403) = false)
           by (apply Z.eqb_neq; apply H403; reflexivity);
         rewrite E403; simpl);
    rewrite Hbody; simpl; auto.
Qed.

End ProductStoreMore.

(** X12 and X18 on a run: a 400 with a detail leaves the list and shows
    the detail. *)
Lemma refused_action_keeps_products_witness :
  products (productStore (snd (dispatch base rejected_with_detail stringify_empty
                                 (CreateProduct (JObj [])) (with_product_list [pen]))))
    = JArr [pen].
Proof.
  apply (refused_action_keeps_products base rejected_with_detail stringify_empty
           (CreateProduct (JObj [])) (with_product_list [pen])).
  simpl. split; [reflexivity | discriminate].
Defined.

Lemma server_detail_is_shown_witness :
  productStore (snd (dispatch base rejected_with_detail stringify_empty
                       (CreateProduct (JObj [])) (with_product_list [pen])))
    = at_rest (JArr [pen]) (JStr "Price must be positive").
Proof.
  destruct (server_detail_is_shown base rejected_with_detail stringify_empty
              (CreateProduct (JObj [])) (with_product_list [pen])
              (mkResponse 400 (Ok (JObj [("detail", JStr "Price must be positive")])))
              [("detail", JStr "Price must be positive")]
              eq_refl eq_refl eq_refl) as (_ & Hstore).
  - simpl. lia.
  - discriminate.
  - reflexivity.
  - exact Hstore.
Defined.

(** X13 on a run: the listing is stored. *)
Lemma fetchProducts_loads_witness :
  productStore (snd (dispatch base listing stringify_empty FetchProducts browser))
    = at_rest (JArr [pen; ink]) JNull.
Proof.
  destruct (fetchProducts_loads base listing stringify_empty browser
              (mkResponse 200 (Ok (JArr [pen; ink]))) eq_refl eq_refl)
    as (_ & Hstore).
  exact Hstore.
Defined.

(** X14 on a run: the created pen goes in front of the ink. *)
Lemma createProduct_prepends_witness :
  productStore (snd (dispatch base created_then_deleted stringify_empty
                       (CreateProduct (JObj [])) (with_product_list [ink])))
    = at_rest (JArr [pen; ink]) JNull.
Proof.
  pose proof (createProduct_prepends base created_then_deleted stringify_empty
                (JObj []) (with_product_list [ink]) (mkResponse 201 (Ok pen)) pen
                eq_refl eq_refl eq_refl) as H.
  simpl in H. destruct H as (_ & Hstore). exact Hstore.
Defined.

(** X15 on a run: product 12 is deleted from a list of two. *)
Lemma deleteProduct_removes_witness :
  productStore (snd (dispatch base deleted stringify_empty
                       (DeleteProduct (JNum 12)) (with_product_list [pen; ink])))
    = at_rest (JArr [ink]) JNull.
Proof.
  destruct (deleteProduct_removes base deleted stringify_empty (JNum 12)
              (with_product_list [pen; ink]) (answer 204) [pen; ink]
              eq_refl eq_refl eq_refl eq_refl) as (_ & Hstore & _).
  - repeat constructor.
  - exact Hstore.
Defined.

(** The id is compared strictly: the string "12" names the same URL as the
    number 12, so the server deletes the product, but the list keeps it. *)
Example delete_by_string_id :
  map req_url (issued (dispatch base deleted stringify_empty
                         (DeleteProduct (JStr "12"))) (with_product_list [pen; ink]))
    = ["http://localhost:8000/api/products/12/"] /\
  productStore (snd (dispatch base deleted stringify_empty
                       (DeleteProduct (JStr "12")) (with_product_list [pen; ink])))
    = at_rest (JArr [pen; ink]) JNull.
Proof. split; reflexivity. Qed.

(** X16 on a run: product 12 is replaced in place. *)
Lemma updateProduct_replaces_witness :
  productStore (snd (dispatch base renamed stringify_empty
                       (UpdateProduct (JNum 12) (JObj []))
                       (with_product_list [ink; pen])))
    = at_rest (JArr [ink; marker]) JNull.
Proof.
  destruct (updateProduct_replaces base renamed stringify_empty (JNum 12) (JObj [])
              (with_product_list [ink; pen]) (mkResponse 200 (Ok marker)) marker
              [ink; pen] eq_refl eq_refl eq_refl eq_refl eq_refl) as (_ & Hstore & _).
  - repeat constructor.
  - exact Hstore.
Defined.

(** X17 on a run: the pen is created and deleted again. *)
Lemma create_then_delete_witness :
  productStore (snd (and_then
                       (dispatch base created_then_deleted stringify_empty
                          (CreateProduct (JObj [])))
                       (dispatch base created_then_deleted stringify_empty
                          (DeleteProduct (JNum 12)))
                       (with_product_list [ink])))
    = at_rest (JArr [ink]) JNull.
Proof.
  apply (create_then_delete base created_then_deleted stringify_empty
           (JObj []) (JNum 12) (with_product_list [ink])
           (mkResponse 201 (Ok pen)) (answer 204) pen [ink]);
    try reflexivity; repeat constructor.
Defined.

(** ** The route middleware *)

(** X19.  The middleware acts on three paths only, compared as whole
    strings: every request for a path other than "/login", "/register" and
    "/dashboard" passes, with or without the cookie.  A path below
    "/dashboard" is therefore not protected by it. *)
Theorem middleware_acts_on_exact_paths (request : NextRequest) :
  pathname request ∉ ["/login"; "/register"; "/dashboard"] ->
  middleware request = Next.
Proof.
  intros Hout. rewrite !not_elem_of_cons in Hout.
  destruct Hout as (Hl & Hr & Hd & _).
  unfold middleware, array_includes, AUTH_ROUTES, PROTECTED_ROUTES. simpl.
  apply String.eqb_neq in Hl, Hr, Hd. rewrite Hl, Hr, Hd. simpl.
  now rewrite !andb_false_r.
Qed.

(** X20.  A redirect of the middleware settles at once: the request that
    follows it, with the same cookies, passes.  With the cookie "/login"
    and "/register" lead to "/dashboard", without it "/dashboard" leads to
    "/login", and neither target is redirected again. *)
Theorem middleware_redirect_settles (request : NextRequest) (target : string) :
  middleware request = Redirect target ->
  middleware (follow request target) = Next /\
  (target = "/dashboard" /\ "access_token" ∈ cookies request \/
   target = "/login" /\ "access_token" ∉ cookies request).
Proof.
  unfold middleware, follow. cbn [pathname cookies].
  destruct (bool_decide ("access_token" ∈ cookies request)) eqn:Hc;
    cbn [andb negb].
  - apply bool_decide_eq_true in Hc.
    destruct (array_includes AUTH_ROUTES (pathname request));
      intros H; [injection H as <- | discriminate H].
    split; [reflexivity | auto].
  - apply bool_decide_eq_false in Hc.
    destruct (array_includes PROTECTED_ROUTES (pathname request));
      intros H; [injection H as <- | discriminate H].
    split; [reflexivity | auto].
Qed.

Lemma middleware_acts_on_exact_paths_witness :
  middleware (visitor "/dashboard/settings") = Next.
Proof.
  apply middleware_acts_on_exact_paths. simpl.
  rewrite !not_elem_of_cons.
  split; [discriminate|]. split; [discriminate|]. split; [discriminate|].
  apply not_elem_of_nil.
Defined.

Lemma middleware_redirect_settles_witness :
  middleware (member_visit "/login") = Redirect "/dashboard" /\
  middleware (follow (member_visit "/login") "/dashboard") = Next.
Proof.
  split; [reflexivity|].
  destruct (middleware_redirect_settles (member_visit "/login") "/dashboard" eq_refl)
    as (H & _).
  exact H.
Defined.

(** ** The page handlers *)

Section Pages.

Variable API_BASE_URL : string.
Variable net : Transport.
Variable JSON_stringify : JSVal -> option string.

Local Abbreviation logout_request :=
  (mkRequest (DashboardPage.logout_url API_BASE_URL) (plain_init "POST" None)).
Local Abbreviation handleLogout := (DashboardPage.handleLogout API_BASE_URL net).
Local Abbreviation login_request :=
  (LoginPage.login_request API_BASE_URL JSON_stringify).
Local Abbreviation handleSubmit :=
  (LoginPage.handleSubmit API_BASE_URL net JSON_stringify).

(** X21.  Logging out on the dashboard.  The handler sends one POST to the
    logout endpoint with the plain [fetch] and always returns with
    loggingOut false.  Only a success status clears the session and routes
    to "/"; after a non-success status or a fault the session stays as it
    was, nothing is routed and logoutError says why. *)
Theorem logout_clears_only_on_success (s : DashboardPage.State) (w : World) :
  let s' := fst (snd (handleLogout s w)) in
  let w' := snd (snd (handleLogout s w)) in
  fst (handleLogout s w) = Ok tt /\
  DashboardPage.loggingOut s' = false /\
  requests w' = requests w ++ [logout_request] /\
  match net (requests w) logout_request with
  | Resp r =>
      if ok r then
        auth w' = cleared /\
        DashboardPage.pushed s' = DashboardPage.pushed s ++ ["/"] /\
        DashboardPage.logoutError s' = JStr ""
      else
        auth w' = auth w /\
        DashboardPage.pushed s' = DashboardPage.pushed s /\
        DashboardPage.logoutError s' = JStr "Logout failed"
  | Fault e =>
      auth w' = auth w /\
      DashboardPage.pushed s' = DashboardPage.pushed s /\
      DashboardPage.logoutError s' = message_or e "An error occurred"
  end.
Proof.
  unfold DashboardPage.handleLogout, ui_bind, ui_finally, ui_try, ui_lift, ui_set,
    DashboardPage.setLoggingOut, DashboardPage.setLogoutError,
    DashboardPage.router_push, AuthStore.clearAuth, authSet, fetch.
  simpl.
  destruct (net (requests w) logout_request) as [r|e]; simpl.
  - destruct (ok r); simpl; auto 10.
  - auto 10.
Qed.

(** X22.  Submitting the login form.  The handler always returns with
    loading false.  The session changes only when the login answers with a
    success status and the /me call that follows answers with a readable
    success: the profile is then stored through setUser (isAuthenticated
    is its truthiness) and the router goes to "/dashboard".  In every other
    case the session is as before and nothing is routed. *)
Theorem login_stores_verified_profile
    (email password : string) (s : LoginPage.State) (w : World) :
  let s' := fst (snd (handleSubmit email password s w)) in
  let w' := snd (snd (handleSubmit email password s w)) in
  fst (handleSubmit email password s w) = Ok tt /\
  LoginPage.loading s' = false /\
  match login_profile API_BASE_URL net JSON_stringify email password w with
  | Some u =>
      auth w' = session_of u (auth w) /\
      LoginPage.pushed s' = LoginPage.pushed s ++ ["/dashboard"] /\
      LoginPage.error s' = JStr "" /\
      requests w' = requests w ++ [login_request email password; me_request API_BASE_URL]
  | None =>
      auth w' = auth w /\ LoginPage.pushed s' = LoginPage.pushed s
  end.
Proof.
  unfold LoginPage.handleSubmit, login_profile, LoginPage.login_request,
    ui_bind, ui_finally, ui_try, ui_lift, ui_set,
    LoginPage.setLocalLoading, LoginPage.setLocalError, LoginPage.router_push,
    AuthStore.setUser, authSet, fetch, json, get, lift, me_request, readable,
    ret, throw.
  simpl.
  destruct (net (requests w) _) as [r|e]; simpl; [|auto].
  destruct (ok r); simpl.
  - destruct (net (requests w ++ _) _) as [r2|e]; simpl; [|auto].
    destruct (ok r2); simpl; [|auto].
    destruct (payload r2); simpl; [|auto].
    rewrite <- app_assoc. auto 10.
  - destruct (payload r) as [data|e]; simpl; [|auto].
    destruct (member data "detail"); simpl; auto.
Qed.

(** X23.  A refused login stops there: after a non-success status the
    handler has sent the login request and nothing else (no /me, no
    refresh), and when the body is an object the form shows its detail if
    that is truthy and "Login failed" otherwise. *)
Theorem refused_login_is_reported
    (email password : string) (s : LoginPage.State) (w : World) (r : Response)
    (fields : list (string * JSVal)) :
  net (requests w) (login_request email password) = Resp r ->
  ok r = false ->
  payload r = Ok (JObj fields) ->
  let s' := fst (snd (handleSubmit email password s w)) in
  let w' := snd (snd (handleSubmit email password s w)) in
  requests w' = requests w ++ [login_request email password] /\
  LoginPage.error s' = js_or (assoc "detail" fields) (JStr "Login failed") /\
  auth w' = auth w.
Proof.
  intros Hnet Hok Hbody.
  unfold LoginPage.handleSubmit, LoginPage.login_request in *.
  unfold ui_bind, ui_finally, ui_try, ui_lift, ui_set,
    LoginPage.setLocalLoading, LoginPage.setLocalError, LoginPage.router_push,
    fetch, json, get, lift, ret.
  simpl. rewrite Hnet. simpl. rewrite Hok. simpl. rewrite Hbody. simpl. auto.
Qed.

End Pages.

(** X23 on a run: the server refuses the credentials. *)
Lemma refused_login_is_reported_witness :
  LoginPage.error
    (fst (snd (LoginPage.handleSubmit base login_refused stringify_empty
                 "alice@example.com" "secret" login_idle anonymous)))
    = JStr "Invalid credentials" /\
  auth (snd (snd (LoginPage.handleSubmit base login_refused stringify_empty
                    "alice@example.com" "secret" login_idle anonymous)))
    = signed_out.
Proof.
  destruct (refused_login_is_reported base login_refused stringify_empty
              "alice@example.com" "secret" login_idle anonymous
              (mkResponse 401 (Ok (JObj [("detail", JStr "Invalid credentials")])))
              [("detail", JStr "Invalid credentials")]
              eq_refl eq_refl eq_refl) as (_ & Herr & Hauth).
  split; [exact Herr | exact Hauth].
Defined.

(** X22 on a run: the login is accepted and /me returns the profile. *)
Example login_accepted_run :
  auth (snd (snd (LoginPage.handleSubmit base login_accepted stringify_empty
                    "alice@example.com" "secret" login_idle anonymous)))
    = signed_in /\
  LoginPage.pushed
    (fst (snd (LoginPage.handleSubmit base login_accepted stringify_empty
                 "alice@example.com" "secret" login_idle anonymous)))
    = ["/dashboard"].
Proof. split; reflexivity. Qed.

(** X21 on a run: the logout is accepted. *)
Example logout_accepted_run :
  auth (snd (snd (DashboardPage.handleLogout base logout_accepted
                    dashboard_idle browser))) = cleared /\
  DashboardPage.pushed
    (fst (snd (DashboardPage.handleLogout base logout_accepted
                 dashboard_idle browser))) = ["/"].
Proof. split; reflexivity. Qed.

